(** * Slide streaming, normalisation and text export of the presentation pages

    A shallow embedding of the slide pipeline of
    [frontend/src/pages/SignIn.tsx] (component [GeneratePresentation]:
    streaming read loop, [parseSlide], re-hydration, text export) and of
    [frontend/src/pages/PresentationView.tsx] ([parseSlide], [load],
    [downloadAsTXT]).

    JavaScript strings are sequences of UTF-16 code units; they are modelled
    as lists of [N].  The platform primitives the pages call
    ([String.prototype.trim], [split], [Array.prototype.join], [TextDecoder],
    [JSON.parse]) are modelled from their ECMAScript / WHATWG definitions. *)

From Stdlib Require Import List NArith ZArith Lia Bool Ascii String.
From Stdlib Require Import Strings.Byte.
From Stdlib Require Import DecimalString.
From Stdlib Require DecimalFacts DecimalN.
Import ListNotations.

Set Warnings "-register-all".

Local Open Scope N_scope.
Local Open Scope list_scope.

#[local] Abbreviation length := Datatypes.length (only parsing).

(** ** JavaScript string primitives *)

Module JS.

(** A JavaScript string: a list of UTF-16 code units. *)
Definition jstring := list N.

(** An ASCII literal as a JavaScript string. *)
Definition js (s : string) : jstring :=
  map N_of_ascii (list_ascii_of_string s).

Definition LF : N := 10.

Definition is_empty (s : jstring) : bool :=
  match s with [] => true | _ :: _ => false end.

(** [WhiteSpace] and [LineTerminator] code units of ECMAScript: the set
    removed by [trim] and matched by the regular-expression class [\s]. *)
Definition is_ws (c : N) : bool :=
  ((9 <=? c) && (c <=? 13)) || (c =? 32) || (c =? 160) || (c =? 5760)
  || ((8192 <=? c) && (c <=? 8202)) || (c =? 8232) || (c =? 8233)
  || (c =? 8239) || (c =? 8287) || (c =? 12288) || (c =? 65279).

Fixpoint drop_ws (s : jstring) : jstring :=
  match s with
  | [] => []
  | c :: s' => if is_ws c then drop_ws s' else s
  end.

Definition trim_start (s : jstring) : jstring := drop_ws s.
Definition trim_end (s : jstring) : jstring := rev (drop_ws (rev s)).

(** [s.trim()] *)
Definition trim (s : jstring) : jstring := trim_end (trim_start s).

(** [s.startsWith(p)] *)
Fixpoint starts_with (p s : jstring) : bool :=
  match p, s with
  | [], _ => true
  | _ :: _, [] => false
  | a :: p', b :: s' => (a =? b) && starts_with p' s'
  end.

(** [s.endsWith(p)] *)
Definition ends_with (p s : jstring) : bool := starts_with (rev p) (rev s).

(** The first occurrence of [sep] in [s], scanning from the left: the text
    before it and the text after it. *)
Fixpoint cut (sep s : jstring) {struct s} : option (jstring * jstring) :=
  if starts_with sep s then Some ([], skipn (length sep) s)
  else match s with
       | [] => None
       | c :: s' =>
           match cut sep s' with
           | Some (a, r) => Some (c :: a, r)
           | None => None
           end
       end.

Fixpoint split_fuel (fuel : nat) (sep s : jstring) : list jstring :=
  match fuel with
  | O => [s]
  | S fuel' =>
      match cut sep s with
      | None => [s]
      | Some (a, r) => a :: split_fuel fuel' sep r
      end
  end.

(** [s.split(sep)] for a non-empty separator string: the pieces between the
    successive leftmost occurrences of [sep].  Every occurrence consumes at
    least one code unit, so [length s] rounds are enough. *)
Definition split (sep s : jstring) : list jstring :=
  split_fuel (length s) sep s.

(** [l.join(sep)] on an array of strings. *)
Fixpoint join (sep : jstring) (l : list jstring) : jstring :=
  match l with
  | [] => []
  | x :: rest =>
      match rest with
      | [] => x
      | _ :: _ => x ++ sep ++ join sep rest
      end
  end.

(** [String(n)] for a non-negative integer below 10^21. *)
Definition number_to_string (n : N) : jstring :=
  js (NilZero.string_of_uint (N.to_uint n)).

(** [l.map((x, i) => f(x, i))] *)
Fixpoint mapi_from {A B} (f : A -> nat -> B) (i : nat) (l : list A) : list B :=
  match l with
  | [] => []
  | x :: l' => f x i :: mapi_from f (S i) l'
  end.

Definition mapi {A B} (f : A -> nat -> B) (l : list A) : list B :=
  mapi_from f 0%nat l.

(** [s.replace(/^\*\*|\*\*$/g, '')]: the global replacement removes a
    leading [**] and then, scanning on from there, a trailing [**]. *)
Definition STARS : jstring := [42; 42].

Definition strip_prefix (p s : jstring) : jstring :=
  if starts_with p s then skipn (length p) s else s.

Definition strip_suffix (p s : jstring) : jstring :=
  if ends_with p s then firstn (length s - length p)%nat s else s.

Definition replace_stars (s : jstring) : jstring :=
  strip_suffix STARS (strip_prefix STARS s).

(** [Canonicalize] of a case-insensitive regular expression without the
    [u] flag, as far as matching an ASCII pattern goes: a code unit of 128
    or more is never mapped below 128, so only the ASCII letters fold. *)
Definition fold_case (c : N) : N :=
  if (97 <=? c) && (c <=? 122) then c - 32 else c.

Fixpoint starts_with_ci (p s : jstring) : bool :=
  match p, s with
  | [], _ => true
  | _ :: _, [] => false
  | a :: p', b :: s' => (fold_case a =? fold_case b) && starts_with_ci p' s'
  end.

Definition SLIDE_TITLE_LABEL : jstring := Eval cbv in js "Slide Title:".
Definition TITLE_LABEL : jstring := Eval cbv in js "Title:".

(** [s.replace(/^Slide Title:|^Title:/i, '')] *)
Definition replace_label (s : jstring) : jstring :=
  if starts_with_ci SLIDE_TITLE_LABEL s then skipn (length SLIDE_TITLE_LABEL) s
  else if starts_with_ci TITLE_LABEL s then skipn (length TITLE_LABEL) s
  else s.

(** The class [[*\-•]]: asterisk, hyphen and U+2022. *)
Definition BULLET : N := 8226.

Definition is_bullet_glyph (c : N) : bool :=
  (c =? 42) || (c =? 45) || (c =? BULLET).

(** [line.replace(/^[*\-•]\s*/, '• ')] *)
Definition replace_bullet (line : jstring) : jstring :=
  match line with
  | c :: rest => if is_bullet_glyph c then BULLET :: 32 :: drop_ws rest else line
  | [] => []
  end.

End JS.
Import JS.

(** ** [TextDecoder]: the streaming UTF-8 decoder of the WHATWG Encoding
    standard, as [new TextDecoder()] followed by
    [decode(value, { stream: true })] uses it *)

Module TextDecoder.

(** The state kept between two calls of [decode] with [stream: true]: the
    UTF-8 decoder's variables and the [BOM seen] flag. *)
Record decoder := mkDecoder {
  code_point : N;
  bytes_seen : N;
  bytes_needed : N;
  lower_boundary : N;
  upper_boundary : N;
  bom_seen : bool
}.

Definition new_decoder : decoder := mkDecoder 0 0 0 128 191 false.

Definition reset (d : decoder) : decoder :=
  mkDecoder 0 0 0 128 191 (bom_seen d).

Definition REPLACEMENT : N := 65533.

(** The handler on a byte when no continuation byte is awaited. *)
Definition lead (d : decoder) (b : N) : decoder * list N :=
  if b <=? 127 then (d, [b])
  else if (194 <=? b) && (b <=? 223) then
    (mkDecoder (N.land b 31) (bytes_seen d) 1
       (lower_boundary d) (upper_boundary d) (bom_seen d), [])
  else if (224 <=? b) && (b <=? 239) then
    (mkDecoder (N.land b 15) (bytes_seen d) 2
       (if b =? 224 then 160 else lower_boundary d)
       (if b =? 237 then 159 else upper_boundary d) (bom_seen d), [])
  else if (240 <=? b) && (b <=? 244) then
    (mkDecoder (N.land b 7) (bytes_seen d) 3
       (if b =? 240 then 144 else lower_boundary d)
       (if b =? 244 then 143 else upper_boundary d) (bom_seen d), [])
  else (d, [REPLACEMENT]).

(** The UTF-8 decoder's handler on one byte: the code points it emits.  A
    byte outside the awaited range ends the sequence with U+FFFD and is
    handled again from the initial state. *)
Definition handler (d : decoder) (b : N) : decoder * list N :=
  if bytes_needed d =? 0 then lead d b
  else if negb ((lower_boundary d <=? b) && (b <=? upper_boundary d)) then
    let (d', out) := lead (reset d) b in (d', REPLACEMENT :: out)
  else
    let cp := N.lor (N.shiftl (code_point d) 6) (N.land b 63) in
    let seen := bytes_seen d + 1 in
    if seen =? bytes_needed d then (reset d, [cp])
    else (mkDecoder cp seen (bytes_needed d) 128 191 (bom_seen d), []).

(** A code point as UTF-16 code units. *)
Definition utf16 (cp : N) : jstring :=
  if cp <? 65536 then [cp]
  else [55296 + N.shiftr (cp - 65536) 10; 56320 + N.land (cp - 65536) 1023].

(** Serialising the emitted code points: the first one is dropped when it
    is the byte order mark U+FEFF ([ignoreBOM] is false by default). *)
Fixpoint serialize (seen : bool) (cps : list N) : bool * jstring :=
  match cps with
  | [] => (seen, [])
  | cp :: rest =>
      let (seen', out) := serialize true rest in
      if negb seen && (cp =? 65279) then (seen', out)
      else (seen', utf16 cp ++ out)
  end.

Definition decode_byte (d : decoder) (b : byte) : decoder * jstring :=
  let (d1, cps) := handler d (Byte.to_N b) in
  let (seen, out) := serialize (bom_seen d1) cps in
  (mkDecoder (code_point d1) (bytes_seen d1) (bytes_needed d1)
     (lower_boundary d1) (upper_boundary d1) seen, out).

(** [decoder.decode(value, { stream: true })]: the text decoded from one
    chunk and the state left for the next call.  Nothing is flushed: an
    unfinished sequence stays pending in the state. *)
Fixpoint decode (d : decoder) (value : list byte) : decoder * jstring :=
  match value with
  | [] => (d, [])
  | b :: rest =>
      let (d1, out1) := decode_byte d b in
      let (d2, out2) := decode d1 rest in
      (d2, out1 ++ out2)
  end.

End TextDecoder.

(** ** [JSON.parse], from the JSON grammar of ECMA-404 *)

Module JSON.

(** A JSON number, kept exactly: [(-1)^negative * mantissa * 10^exponent]. *)
Record number := mkNumber {
  negative : bool;
  mantissa : N;
  exponent : Z
}.

Inductive value :=
| JNull
| JBool (b : bool)
| JNumber (n : number)
| JString (s : jstring)
| JArray (elements : list value)
| JObject (members : list (jstring * value)).

Inductive result (A : Type) :=
| Parsed (v : A) (rest : jstring)
| SyntaxError
| OutOfFuel.
Arguments Parsed {A} v rest.
Arguments SyntaxError {A}.
Arguments OutOfFuel {A}.

(** JSON white space: tab, line feed, carriage return, space. *)
Definition is_json_ws (c : N) : bool :=
  (c =? 9) || (c =? 10) || (c =? 13) || (c =? 32).

Fixpoint skip_ws (s : jstring) : jstring :=
  match s with
  | c :: s' => if is_json_ws c then skip_ws s' else s
  | [] => []
  end.

Definition is_digit (c : N) : bool := (48 <=? c) && (c <=? 57).

Definition hex_digit (c : N) : option N :=
  if is_digit c then Some (c - 48)
  else if (65 <=? c) && (c <=? 70) then Some (c - 55)
  else if (97 <=? c) && (c <=? 102) then Some (c - 87)
  else None.

Definition hex4 (a b c d : N) : option N :=
  match hex_digit a, hex_digit b, hex_digit c, hex_digit d with
  | Some x, Some y, Some z, Some w => Some (((x * 16 + y) * 16 + z) * 16 + w)
  | _, _, _, _ => None
  end.

(** The code unit a single-character escape stands for. *)
Definition unescape (e : N) : option N :=
  if e =? 34 then Some 34 else if e =? 92 then Some 92
  else if e =? 47 then Some 47 else if e =? 98 then Some 8
  else if e =? 102 then Some 12 else if e =? 110 then Some 10
  else if e =? 114 then Some 13 else if e =? 116 then Some 9
  else None.

(** The characters of a string after its opening quotation mark, up to and
    including the closing one: any code unit from U+0020 on except the
    quotation mark and the reverse solidus, or an escape. *)
Fixpoint parse_chars (s : jstring) : option (jstring * jstring) :=
  match s with
  | [] => None
  | c :: rest =>
      if c =? 34 then Some ([], rest)
      else if c =? 92 then
        match rest with
        | [] => None
        | e :: rest1 =>
            if e =? 117 then
              match rest1 with
              | h1 :: h2 :: h3 :: h4 :: rest2 =>
                  match hex4 h1 h2 h3 h4, parse_chars rest2 with
                  | Some u, Some (str, r) => Some (u :: str, r)
                  | _, _ => None
                  end
              | _ => None
              end
            else
              match unescape e, parse_chars rest1 with
              | Some u, Some (str, r) => Some (u :: str, r)
              | _, _ => None
              end
        end
      else if c <? 32 then None
      else
        match parse_chars rest with
        | Some (str, r) => Some (c :: str, r)
        | None => None
        end
  end.

(** The leading decimal digits of [s]: their value, their count, the rest. *)
Fixpoint digits (acc : N) (count : nat) (s : jstring) : N * nat * jstring :=
  match s with
  | c :: s' => if is_digit c then digits (acc * 10 + (c - 48)) (S count) s'
               else (acc, count, s)
  | [] => (acc, count, s)
  end.

Definition parse_sign (s : jstring) : bool * jstring :=
  match s with
  | c :: s' => if c =? 45 then (true, s')
               else if c =? 43 then (false, s') else (false, s)
  | [] => (false, s)
  end.

Definition parse_exponent (s : jstring) : option (Z * jstring) :=
  match s with
  | c :: s1 =>
      if (c =? 101) || (c =? 69) then
        let '(neg, s2) := parse_sign s1 in
        let '(e, n, s3) := digits 0 0 s2 in
        match n with
        | O => None
        | S _ => Some (if neg then (- Z.of_N e)%Z else Z.of_N e, s3)
        end
      else Some (0%Z, s)
  | [] => Some (0%Z, s)
  end.

Definition parse_fraction (int : N) (s : jstring) : option (N * nat * jstring) :=
  match s with
  | c :: s1 =>
      if c =? 46 then
        let '(m, n, s2) := digits int 0 s1 in
        match n with
        | O => None
        | S _ => Some (m, n, s2)
        end
      else Some (int, O, s)
  | [] => Some (int, O, s)
  end.

(** The integer part: a single [0], or digits that do not start with
    [0]. *)
Definition parse_int (s : jstring) : option (N * jstring) :=
  match s with
  | c :: s' =>
      if c =? 48 then Some (0, s')
      else if is_digit c then let '(i, _, r) := digits 0 0 s in Some (i, r)
      else None
  | [] => None
  end.

(** A number: an optional minus sign, an integer part, an optional
    fraction and an optional exponent. *)
Definition parse_minus (s : jstring) : bool * jstring :=
  match s with
  | c :: s' => if c =? 45 then (true, s') else (false, s)
  | [] => (false, s)
  end.

Definition parse_number (s : jstring) : option (number * jstring) :=
  let '(neg, s1) := parse_minus s in
  match parse_int s1 with
  | None => None
  | Some (i, s2) =>
      match parse_fraction i s2 with
      | None => None
      | Some (m, nfrac, s3) =>
          match parse_exponent s3 with
          | None => None
          | Some (e, s4) => Some (mkNumber neg m (e - Z.of_nat nfrac), s4)
          end
      end
  end.

Definition TRUE : jstring := Eval cbv in js "true".
Definition FALSE : jstring := Eval cbv in js "false".
Definition NULL : jstring := Eval cbv in js "null".

Definition parse_literal (s : jstring) : result value :=
  if starts_with TRUE s then Parsed (JBool true) (skipn 4 s)
  else if starts_with FALSE s then Parsed (JBool false) (skipn 5 s)
  else if starts_with NULL s then Parsed JNull (skipn 4 s)
  else match parse_number s with
       | Some (n, r) => Parsed (JNumber n) r
       | None => SyntaxError
       end.

Definition parse_string (s : jstring) : result value :=
  match parse_chars s with
  | Some (str, r) => Parsed (JString str) r
  | None => SyntaxError
  end.

(** Does [s] start with code unit [c]?  Then the rest. *)
Definition expect (c : N) (s : jstring) : option jstring :=
  match s with
  | x :: r => if x =? c then Some r else None
  | [] => None
  end.

(** A value at the head of [s] (no leading white space); the elements of
    an array from the first one on; the members of an object from the
    first one on. *)
Fixpoint parse_value (fuel : nat) (s : jstring) : result value :=
  match fuel with
  | O => OutOfFuel
  | S fuel' =>
      match s with
      | [] => SyntaxError
      | c :: r =>
          if c =? 123 then
            match expect 125 (skip_ws r) with
            | Some r' => Parsed (JObject []) r'
            | None => parse_members fuel' (skip_ws r) []
            end
          else if c =? 91 then
            match expect 93 (skip_ws r) with
            | Some r' => Parsed (JArray []) r'
            | None => parse_elements fuel' (skip_ws r) []
            end
          else if c =? 34 then parse_string r
          else parse_literal s
      end
  end
with parse_elements (fuel : nat) (s : jstring) (acc : list value)
  : result value :=
  match fuel with
  | O => OutOfFuel
  | S fuel' =>
      match parse_value fuel' s with
      | Parsed v r =>
          match expect 44 (skip_ws r) with
          | Some r' => parse_elements fuel' (skip_ws r') (v :: acc)
          | None =>
              match expect 93 (skip_ws r) with
              | Some r' => Parsed (JArray (rev (v :: acc))) r'
              | None => SyntaxError
              end
          end
      | SyntaxError => SyntaxError
      | OutOfFuel => OutOfFuel
      end
  end
with parse_members (fuel : nat) (s : jstring) (acc : list (jstring * value))
  : result value :=
  match fuel with
  | O => OutOfFuel
  | S fuel' =>
      match expect 34 s with
      | None => SyntaxError
      | Some r =>
          match parse_chars r with
          | None => SyntaxError
          | Some (key, r1) =>
              match expect 58 (skip_ws r1) with
              | None => SyntaxError
              | Some r2 =>
                  match parse_value fuel' (skip_ws r2) with
                  | Parsed v r3 =>
                      match expect 44 (skip_ws r3) with
                      | Some r4 =>
                          parse_members fuel' (skip_ws r4) ((key, v) :: acc)
                      | None =>
                          match expect 125 (skip_ws r3) with
                          | Some r4 =>
                              Parsed (JObject (rev ((key, v) :: acc))) r4
                          | None => SyntaxError
                          end
                      end
                  | SyntaxError => SyntaxError
                  | OutOfFuel => OutOfFuel
                  end
              end
          end
      end
  end.

(** [JSON.parse(text)]: [None] when it throws a [SyntaxError].  Each nested
    call consumes a code unit, so [2 * length text + 2] rounds are enough. *)
Definition parse (text : jstring) : option value :=
  match parse_value (2 * length text + 2) (skip_ws text) with
  | Parsed v rest => if is_empty (skip_ws rest) then Some v else None
  | _ => None
  end.

(** A result that is not a fuel exhaustion, and a rest that is shorter. *)
Definition progress (s : jstring) (r : result value) : Prop :=
  match r with
  | Parsed _ rest => (length rest < length s)%nat
  | SyntaxError => True
  | OutOfFuel => False
  end.

Definition jstring_eqb (a b : jstring) : bool :=
  (length a =? length b)%nat && starts_with a b.

(** The value of property [key] of a parsed object: of duplicate names the
    last one wins. *)
Fixpoint get (key : jstring) (members : list (jstring * value)) : option value :=
  match members with
  | [] => None
  | (k, v) :: rest =>
      match get key rest with
      | Some v' => Some v'
      | None => if jstring_eqb k key then Some v else None
      end
  end.

(** A parsed number is converted to the nearest double, ties to even: it
    is [0] exactly when the mantissa is [0] or its magnitude is at most
    [2^-1075], half the least subnormal. *)
Definition number_is_zero (n : number) : bool :=
  (mantissa n =? 0)
  || match exponent n with
     | Zneg p => (Z.of_N (mantissa n) * 2 ^ 1075 <=? 10 ^ Zpos p)%Z
     | _ => false
     end.

(** [ToBoolean] of a parsed value. *)
Definition truthy (v : value) : bool :=
  match v with
  | JNull => false
  | JBool b => b
  | JNumber n => negb (number_is_zero n)
  | JString s => negb (is_empty s)
  | JArray _ => true
  | JObject _ => true
  end.

End JSON.

(** ** The data both pages share *)

(** [type Slide = { title: string; content: string; index: number }] *)
Record Slide := mkSlide {
  title : jstring;
  content : jstring;
  index : nat
}.

Definition NEWLINE : jstring := [LF].

(** The record boundary of the streamed body: two line feeds. *)
Definition RECORD_BOUNDARY : jstring := [LF; LF].

(** ["---SLIDE_SEPARATOR---"] *)
Definition SLIDE_SEPARATOR : jstring := Eval cbv in js "---SLIDE_SEPARATOR---".

(** ["\n\n---SLIDE_SEPARATOR---\n\n"] *)
Definition SEPARATOR_SEQUENCE : jstring :=
  Eval cbv in [LF; LF] ++ SLIDE_SEPARATOR ++ [LF; LF].

Definition CONTENT : jstring := Eval cbv in js "content".

Definition SLIDE_ : jstring := Eval cbv in js "Slide ".
Definition COLON_ : jstring := Eval cbv in js ": ".

(** [`Slide ${index + 1}`] *)
Definition default_title (index : nat) : jstring :=
  SLIDE_ ++ number_to_string (N.of_nat (index + 1)).

(** [line => line.trim()] used as a filter: keeps the lines that are not
    white space only. *)
Definition non_blank (line : jstring) : bool := negb (is_empty (trim line)).

(** [lines[0]?.replace(/^\*\*|\*\*$/g, '').replace(/^Slide Title:|^Title:/i, '').trim()
    || `Slide ${index + 1}`] *)
Definition title_of (lines : list jstring) (index : nat) : jstring :=
  match lines with
  | [] => default_title index
  | first :: _ =>
      let t := trim (replace_label (replace_stars first)) in
      if is_empty t then default_title index else t
  end.

(** [slide => slide.trim() && slide.trim() !== "---SLIDE_SEPARATOR---"] *)
Definition is_slide_block (block : jstring) : bool :=
  negb (is_empty (trim block))
  && negb (JSON.jstring_eqb (trim block) SLIDE_SEPARATOR).

(** [`Slide ${i + 1}: ${slide.title}\n\n${slide.content}`] *)
Definition export_block (slide : Slide) (i : nat) : jstring :=
  SLIDE_ ++ number_to_string (N.of_nat (i + 1)) ++ COLON_
    ++ title slide ++ [LF; LF] ++ content slide.

(** ** [pages/PresentationView.tsx] *)

Module PresentationView.

(** [parseSlide], lines 34-42. *)
Definition parseSlide (slideText : jstring) (index : nat) : Slide :=
  let lines := filter non_blank (split NEWLINE (trim slideText)) in
  let title := title_of lines index in
  let content := join NEWLINE (map replace_bullet (tl lines)) in
  mkSlide title content index.

(** The [parsedSlides] of [load], lines 64-67. *)
Definition parsedSlides (content : jstring) : list Slide :=
  mapi parseSlide (filter is_slide_block (split SEPARATOR_SEQUENCE content)).

(** The [slides] state after [load] has fetched a presentation, lines
    63-69: [setSlides] is called only when [data.content] is a non-empty
    string, otherwise the state stays as it was (initially the empty
    list). *)
Definition load (content : option jstring) (slides : list Slide)
  : list Slide :=
  match content with
  | Some c => if is_empty c then slides else parsedSlides c
  | None => slides
  end.

(** The text [downloadAsTXT] puts in the downloaded file, lines 132-134. *)
Definition export_text (slides : list Slide) : jstring :=
  join SEPARATOR_SEQUENCE (mapi export_block slides).

(** [downloadAsTXT], lines 128-148: nothing is exported when the
    presentation has no content. *)
Definition downloadAsTXT (content : option jstring) (slides : list Slide)
  : option jstring :=
  match content with
  | Some c => if is_empty c then None else Some (export_text slides)
  | None => None
  end.

End PresentationView.

(** ** [pages/SignIn.tsx], component [GeneratePresentation] *)

Module SignIn.

(** [parseSlide], lines 664-669. *)
Definition parseSlide (slideText : jstring) (index : nat) : Slide :=
  let lines := filter non_blank (split NEWLINE (trim slideText)) in
  let title := title_of lines index in
  let content := join NEWLINE (tl lines) in
  mkSlide title content index.

(** The [slides] of [handleSelectPresentation], lines 718-721. *)
Definition selectedSlides (content : jstring) : list Slide :=
  mapi parseSlide (filter is_slide_block (split SEPARATOR_SEQUENCE content)).

(** The text of [downloadAsTXT], lines 855-857. *)
Definition export_text (slides : list Slide) : jstring :=
  join SEPARATOR_SEQUENCE (mapi export_block slides).

(** The React state the read loop updates. *)
Record ui := mkUi {
  generatedSlides : list Slide;
  currentSlideIndex : nat
}.

Inductive exn := SyntaxErrorExn | TypeErrorExn.

(** A computation over the React state that returns or throws; the state
    updates queued before a throw stay applied. *)
Definition M (A : Type) : Type := ui -> (A + exn) * ui.

Definition ret {A} (a : A) : M A := fun u => (inl a, u).

Definition bind {A B} (c : M A) (k : A -> M B) : M B :=
  fun u =>
    match c u with
    | (inl a, u') => k a u'
    | (inr e, u') => (inr e, u')
    end.

Definition throw {A} (e : exn) : M A := fun u => (inr e, u).

Notation "x <- c ;; k" := (bind c (fun x => k))
  (at level 61, c at next level, right associativity).
Notation "c ;; k" := (bind c (fun _ => k))
  (at level 61, right associativity).

(** [setGeneratedSlides(f)] and [setCurrentSlideIndex(f)] with an updater. *)
Definition setGeneratedSlides (f : list Slide -> list Slide) : M unit :=
  fun u => (inl tt, mkUi (f (generatedSlides u)) (currentSlideIndex u)).

Definition setCurrentSlideIndex (f : nat -> nat) : M unit :=
  fun u => (inl tt, mkUi (generatedSlides u) (f (currentSlideIndex u))).

(** The React state after [handleSelectPresentation] has fetched a
    presentation, lines 717-723. *)
Definition handleSelectPresentation (content : option jstring) (u : ui) : ui :=
  match content with
  | Some c =>
      if is_empty c then u
      else mkUi (selectedSlides c) (currentSlideIndex u)
  | None => u
  end.

(** [JSON.parse(slideJson)] *)
Definition JSON_parse (text : jstring) : M JSON.value :=
  match JSON.parse text with
  | Some v => ret v
  | None => throw SyntaxErrorExn
  end.

(** [slide.content]: [None] is [undefined]; reading a property of [null]
    throws. *)
Definition get_content (slide : JSON.value) : M (option JSON.value) :=
  match slide with
  | JSON.JNull => throw TypeErrorExn
  | JSON.JObject members => ret (JSON.get CONTENT members)
  | _ => ret None
  end.

(** The body of the [for] loop, lines 782-791.  [slide.content.trim] is a
    function only when the content is a string. *)
Definition process_part (slideJson : jstring) : M unit :=
  if is_empty slideJson then ret tt
  else
    slide <- JSON_parse slideJson ;;
    c <- get_content slide ;;
    match c with
    | None => ret tt
    | Some v =>
        if negb (JSON.truthy v) then ret tt
        else
          match v with
          | JSON.JString text =>
              if JSON.jstring_eqb (trim text) SLIDE_SEPARATOR then ret tt
              else
                setGeneratedSlides
                  (fun prev => prev ++ [parseSlide text (length prev)]) ;;
                setCurrentSlideIndex (fun prev => S prev)
          | _ => throw TypeErrorExn
          end
    end.

(** [for (let i = 0; i < parts.length - 1; i++)], lines 781-792. *)
Fixpoint for_parts (parts : list jstring) : M unit :=
  match parts with
  | [] => ret tt
  | slideJson :: rest => process_part slideJson ;; for_parts rest
  end.

(** The variables of the read loop. *)
Record locals := mkLocals {
  decoder : TextDecoder.decoder;
  accumulatedData : jstring
}.

Definition initial_locals : locals := mkLocals TextDecoder.new_decoder [].

(** One round of the [while] loop on a chunk, lines 775-794. *)
Definition on_chunk (value : list byte) (l : locals) : M locals :=
  let (d, text) := TextDecoder.decode (decoder l) value in
  let acc := accumulatedData l ++ text in
  let parts := split RECORD_BOUNDARY acc in
  if (1 <? length parts)%nat then
    for_parts (removelast parts) ;;
    ret (mkLocals d (last parts []))
  else ret (mkLocals d acc).

(** The [while (true)] loop over the chunks [reader.read()] delivers before
    it reports [done], lines 771-795. *)
Fixpoint read_loop (chunks : list (list byte)) (l : locals) : M unit :=
  match chunks with
  | [] => ret tt
  | value :: rest => l' <- on_chunk value l ;; read_loop rest l'
  end.

Definition initial_ui : ui := mkUi [] 0.

(** The [try] block on a response body, lines 767-795, after
    [setGeneratedSlides([])] and [setCurrentSlideIndex(0)]: the exception
    caught by the [catch] of line 804, if any, and the React state. *)
Definition stream_response (chunks : list (list byte)) : option exn * ui :=
  match read_loop chunks initial_locals initial_ui with
  | (inl _, u) => (None, u)
  | (inr e, u) => (Some e, u)
  end.

Inductive toast := TitleRequired | PresentationGenerated | GenerationFailed.

(** [handleSubmit], lines 733-814, on the title, the response body (absent
    when [response.body] is null) and the React state.  The body is the
    sequence of chunks read before [done]; a failing [fetch] or [read] is
    not modelled. *)
Definition handleSubmit (title : jstring) (body : option (list (list byte)))
    (u : ui) : option toast * ui :=
  if is_empty (trim title) then (Some TitleRequired, u)
  else
    match body with
    | None => (None, initial_ui)
    | Some chunks =>
        match stream_response chunks with
        | (None, u') => (Some PresentationGenerated, u')
        | (Some _, u') => (Some GenerationFailed, u')
        end
    end.

End SignIn.

(** ** [pages/PresentationView.tsx]: the deck on screen *)

Module Viewer.

(** [slideThemes], lines 25-32. *)
Record theme := mkTheme { bg : jstring; text : jstring }.

Definition slideThemes : list theme :=
  [mkTheme (js "from-blue-500 to-purple-600") (js "text-white");
   mkTheme (js "from-emerald-500 to-teal-600") (js "text-white");
   mkTheme (js "from-orange-500 to-pink-600") (js "text-white");
   mkTheme (js "from-indigo-500 to-blue-600") (js "text-white");
   mkTheme (js "from-purple-500 to-pink-600") (js "text-white");
   mkTheme (js "from-cyan-500 to-blue-600") (js "text-white")].

(** [l[i]] for an integral number [i]: [None] is [undefined]. *)
Definition at_index {A} (l : list A) (i : Z) : option A :=
  if (i <? 0)%Z then None else nth_error l (Z.to_nat i).

(** [slides.length] *)
Definition count (slides : list Slide) : Z := Z.of_nat (length slides).

Inductive key := ArrowRight | ArrowLeft | OtherKey.

(** [handleKeyPress], lines 80-86, as the new value of [currentSlide]. *)
Definition handleKeyPress (slides : list Slide) (k : key) (currentSlide : Z)
  : Z :=
  match k with
  | ArrowRight =>
      if (currentSlide <? count slides - 1)%Z then (currentSlide + 1)%Z
      else currentSlide
  | ArrowLeft =>
      if (0 <? currentSlide)%Z then (currentSlide - 1)%Z else currentSlide
  | OtherKey => currentSlide
  end.

(** The Previous button, lines 255-265: disabled on the first slide,
    otherwise [setCurrentSlide(prev => Math.max(0, prev - 1))]. *)
Definition clickPrevious (currentSlide : Z) : Z :=
  if (currentSlide =? 0)%Z then currentSlide
  else Z.max 0 (currentSlide - 1).

(** The Next button, lines 280-290: disabled on the last slide, otherwise
    [setCurrentSlide(prev => Math.min(slides.length - 1, prev + 1))]. *)
Definition clickNext (slides : list Slide) (currentSlide : Z) : Z :=
  if (currentSlide =? count slides - 1)%Z then currentSlide
  else Z.min (count slides - 1) (currentSlide + 1).

(** A dot of the bottom bar, lines 267-278: one per slide, it selects its
    slide; there is no dot beyond the last slide. *)
Definition clickDot (slides : list Slide) (idx : nat) (currentSlide : Z) : Z :=
  if (idx <? length slides)%nat then Z.of_nat idx else currentSlide.

Inductive action :=
| Press (k : key)
| Previous
| Next
| Dot (idx : nat).

Definition step (slides : list Slide) (currentSlide : Z) (a : action) : Z :=
  match a with
  | Press k => handleKeyPress slides k currentSlide
  | Previous => clickPrevious currentSlide
  | Next => clickNext slides currentSlide
  | Dot idx => clickDot slides idx currentSlide
  end.

(** A sequence of user actions, each handled on the state the previous
    one left. *)
Definition navigate (slides : list Slide) (currentSlide : Z)
    (actions : list action) : Z :=
  fold_left (step slides) actions currentSlide.

(** [slides[currentSlide]], line 172. *)
Definition currentSlideData (slides : list Slide) (currentSlide : Z)
  : option Slide :=
  at_index slides currentSlide.

(** [slideThemes[currentSlide % slideThemes.length]], line 173; [%] is the
    remainder with the sign of the dividend. *)
Definition currentTheme (currentSlide : Z) : option theme :=
  at_index slideThemes (Z.rem currentSlide (Z.of_nat (length slideThemes))).

(** A row of the slide body, lines 232-247: a bullet with its text, or a
    paragraph. *)
Inductive row :=
| BulletRow (text : jstring)
| ParagraphRow (text : jstring).

Definition render_line (line : jstring) : row :=
  if starts_with [BULLET] line then BulletRow (trim (skipn 1 line))
  else ParagraphRow line.

(** [content.split('\n').filter(line => line.trim()).map(...)] *)
Definition render_content (content : jstring) : list row :=
  map render_line (filter non_blank (split NEWLINE content)).

(** The screen chosen by lines 150-170 once loading is over: the error
    screen when there is an error, no presentation or no slide. *)
Definition shows_not_found (err : bool) (presentation : bool)
    (slides : list Slide) : bool :=
  err || negb presentation || (count slides =? 0)%Z.

(** The current slide is one of the slides. *)
Definition in_deck (slides : list Slide) (currentSlide : Z) : Prop :=
  (0 <= currentSlide < count slides)%Z.

End Viewer.

(** ** [pages/SignIn.tsx], component [GeneratePresentation]: the cards *)

Module Cards.

(** The card of slide [index] is enlarged when
    [index === currentSlideIndex && isGenerating], line 1075. *)
Definition enlarged (index : nat) (u : SignIn.ui) (isGenerating : bool)
  : bool :=
  (index =? SignIn.currentSlideIndex u)%nat && isGenerating.

(** The cards of [generatedSlides.map((slide, index) => ...)], line 1069:
    for each slide, whether its card is enlarged. *)
Definition cards (u : SignIn.ui) (isGenerating : bool) : list (Slide * bool) :=
  mapi (fun slide index => (slide, enlarged index u isGenerating))
       (SignIn.generatedSlides u).

End Cards.

(** ** [pages/SignIn.tsx], component [AddBook] *)

Module AddBook.

(** The updater of the progress timer, lines 290-296. *)
Definition tick (prev : Z) : Z :=
  if (90 <=? prev)%Z then 90%Z else (prev + 10)%Z.

(** [n] firings of the timer. *)
Fixpoint ticks (n : nat) (progress : Z) : Z :=
  match n with
  | O => progress
  | S n' => ticks n' (tick progress)
  end.

Inductive message := Reading | Extracting | Embedding | Finalizing.

(** The status texts under the progress bar, lines 577-580: each one is
    rendered when its condition holds. *)
Definition messages (uploadProgress : Z) : list message :=
  (if (uploadProgress <? 30)%Z then [Reading] else [])
  ++ (if (30 <=? uploadProgress)%Z && (uploadProgress <? 60)%Z
      then [Extracting] else [])
  ++ (if (60 <=? uploadProgress)%Z && (uploadProgress <? 90)%Z
      then [Embedding] else [])
  ++ (if (90 <=? uploadProgress)%Z then [Finalizing] else []).

(** A code unit of the class [[^/.]]. *)
Definition is_extension_unit (c : N) : bool := negb ((c =? 47) || (c =? 46)).

(** [name.replace(/\.[^/.]+$/, "")], line 325: the leftmost full stop that
    is followed, up to the end, by one or more code units other than [/]
    and [.] is removed with what follows it. *)
Fixpoint remove_extension (name : jstring) : jstring :=
  match name with
  | [] => []
  | c :: rest =>
      if (c =? 46) && negb (is_empty rest) && forallb is_extension_unit rest
      then []
      else c :: remove_extension rest
  end.

End AddBook.

(** ** Vocabulary of the statements *)

(** A block is framed by [sep] when the first occurrence of [sep] in the
    block followed by [sep] is the one that follows it. *)
Definition framed (sep b : jstring) : Prop := cut sep (b ++ sep) = Some (b, []).

(** The last code unit is not white space. *)
Definition ends_clean (s : jstring) : bool :=
  match rev s with
  | c :: _ => negb (is_ws c)
  | [] => false
  end.

(** No line feed occurs in [s]. *)
Definition no_lf (s : jstring) : bool := forallb (fun c => negb (c =? LF)) s.

(** The lines [parseSlide] keeps: the non-blank lines of the trimmed
    text. *)
Definition kept_lines (slideText : jstring) : list jstring :=
  filter non_blank (split NEWLINE (trim slideText)).

(** The number a sequence of decimal digits denotes. *)
Definition decimal_value (digits : jstring) : N :=
  fold_left (fun acc c => 10 * acc + (c - 48)) digits 0.

(** [numeral] is the decimal numeral of [n]: decimal digits, at least one,
    without a leading zero unless it is the single digit [0], that denote
    [n]. *)
Definition decimal_numeral (numeral : jstring) (n : nat) : Prop :=
  numeral <> []
  /\ Forall (fun c => JSON.is_digit c = true) numeral
  /\ (forall rest, numeral = 48 :: rest -> rest = [])
  /\ decimal_value numeral = N.of_nat n.

(** [`Slide ${i + 1}: ${slide.title}`], the first line of an exported
    block. *)
Definition title_line (slide : Slide) (i : nat) : jstring :=
  SLIDE_ ++ number_to_string (N.of_nat (i + 1)) ++ COLON_ ++ title slide.

(** A title that survives the export: not empty, on one line, and ending
    neither in white space nor in [**]. *)
Definition well_formed_title (t : jstring) : bool :=
  ends_clean t && no_lf t && negb (ends_with STARS t).

(** A content line as [PresentationView.parseSlide] leaves it: not blank,
    with its leading bullet already canonical. *)
Definition well_formed_line (l : jstring) : bool :=
  non_blank l && JSON.jstring_eqb (replace_bullet l) l.

(** ["• "], what the bullet rule makes of a bullet glyph alone on its
    line. *)
Definition BARE_BULLET : jstring := [BULLET; 32].

(** A content that survives the export: empty, or made of such lines, with
    no white space at its end unless its last line is the bare bullet. *)
Definition well_formed_content (c : jstring) : bool :=
  is_empty c
  || (forallb well_formed_line (split NEWLINE c)
      && (ends_clean c
          || JSON.jstring_eqb (last (split NEWLINE c) []) BARE_BULLET)).

Definition well_formed (slide : Slide) : bool :=
  well_formed_title (title slide) && well_formed_content (content slide).

(** A Slide whose title is on one line and ends cleanly and whose content
    is well formed. *)
Definition plain (s : Slide) : Prop :=
  ends_clean (title s) = true /\ no_lf (title s) = true
  /\ well_formed_content (content s) = true.

(** What re-parsing an exported slide gives: the exported first line as
    title. *)
Definition reparsed (slide : Slide) (i : nat) : Slide :=
  mkSlide (title_line slide i) (content slide) i.

(** A content as [SignIn.parseSlide] leaves it and that survives the
    export: empty, or made of non-blank lines, without white space at its
    end and not starting with a hyphen. *)
Definition raw_content (c : jstring) : bool :=
  is_empty c
  || (ends_clean c && forallb non_blank (split NEWLINE c)
      && negb (starts_with [45] c)).

Definition raw_well_formed (slide : Slide) : bool :=
  well_formed_title (title slide) && raw_content (content slide).

(** The row a kept source line gives on screen: a line that starts with
    [*], [-] or [•] gives a bullet with the trimmed rest, any other line a
    paragraph. *)
Definition row_of_source_line (line : jstring) : Viewer.row :=
  match line with
  | c :: rest =>
      if is_bullet_glyph c then Viewer.BulletRow (trim rest)
      else Viewer.ParagraphRow line
  | [] => Viewer.ParagraphRow []
  end.

(** A Slide with the bullet rule applied to every line of its content. *)
Definition canonical_bullets (s : Slide) : Slide :=
  mkSlide (title s)
    (join NEWLINE (map replace_bullet (split NEWLINE (content s))))
    (index s).

Module TextDecoderSpec.
Import TextDecoder.

(** The text the successive calls of [decode] return for a sequence of
    chunks, concatenated. *)
Fixpoint decode_chunks (d : decoder) (chunks : list (list byte)) : jstring :=
  match chunks with
  | [] => []
  | value :: rest =>
      let (d', text) := decode d value in text ++ decode_chunks d' rest
  end.

(** The whole text of a byte stream, decoded by a fresh decoder. *)
Definition decoded (stream : list byte) : jstring :=
  snd (decode new_decoder stream).

End TextDecoderSpec.

Module StreamSpec.
Import SignIn.

(** The payloads of the complete records of a text: every piece but the
    last. *)
Definition complete_records (text : jstring) : list jstring :=
  removelast (split RECORD_BOUNDARY text).

(** The text of a sequence of records, each followed by the boundary. *)
Fixpoint frame (records : list jstring) : jstring :=
  match records with
  | [] => []
  | r :: rest => r ++ RECORD_BOUNDARY ++ frame rest
  end.

(** The slide indices are [0, 1, 2, ...] in order. *)
Definition contiguous (slides : list Slide) : Prop :=
  map index slides = seq 0 (length slides).

Definition outcome (r : (unit + exn) * ui) : option exn * ui :=
  match r with
  | (inl _, u) => (None, u)
  | (inr e, u) => (Some e, u)
  end.

(** The state [u'] is the state [u] with the slides [added] appended and
    the current index advanced by their number. *)
Definition appended (u u' : ui) (added : list Slide) : Prop :=
  generatedSlides u' = generatedSlides u ++ added
  /\ currentSlideIndex u' = (currentSlideIndex u + length added)%nat.

End StreamSpec.

(** ** Concrete inputs *)

Module Examples.

Definition ascii_byte (c : N) : byte :=
  match Byte.of_N c with Some b => b | None => x00 end.

(** The UTF-8 bytes of an ASCII text. *)
Definition ascii_bytes (s : jstring) : list byte := map ascii_byte s.

Definition quote (s : jstring) : jstring := 34 :: s ++ [34].

(** The JSON text of an object with the single member [content]; [body]
    is the text between the quotation marks, escapes included. *)
Definition record (body : jstring) : jstring :=
  js "{" ++ quote CONTENT ++ js ":" ++ quote body ++ js "}".

(** The JSON escape of a line feed. *)
Definition ESC_LF : jstring := [92; 110].

(** The block of lines [**Derivatives**], [- First point],
    [* Second point], [• Third point]. *)
Definition derivatives : jstring :=
  js "**Derivatives**" ++ [LF] ++ js "- First point" ++ [LF]
    ++ js "* Second point" ++ [LF] ++ BULLET :: js " Third point".

Definition derivatives_canonical : jstring :=
  BULLET :: js " First point" ++ [LF] ++ BULLET :: js " Second point"
    ++ [LF] ++ BULLET :: js " Third point".

Definition derivatives_raw : jstring :=
  js "- First point" ++ [LF] ++ js "* Second point" ++ [LF]
    ++ BULLET :: js " Third point".


(** A title line and a hyphen bullet. *)
Definition hyphen_bullet : jstring := js "Title" ++ [LF] ++ js "- a".

Definition white_space_only : jstring := [32; LF; 9; 32].

(** A first line that is markers and label only, and a content line. *)
Definition label_only : jstring := js "**Title:**" ++ [LF] ++ js "body".

Definition one_slide : list Slide := [mkSlide (js "A") (js "b") 0].

Definition deck : list Slide :=
  [mkSlide (js "Limits") (BULLET :: js " first" ++ [LF] ++ js "second") 0;
   mkSlide (js "Break") [] 1;
   mkSlide (js "Summary") (js "done") 2].

(** A deck as the viewer makes it of the blocks [Limits], [- first],
    [second]; [Break]; and [Summary], [done], [-]: the last content ends
    with the bare bullet. *)
Definition viewer_deck : list Slide :=
  [mkSlide (js "Limits") (BULLET :: js " first" ++ [LF] ++ js "second") 0;
   mkSlide (js "Break") [] 1;
   mkSlide (js "Summary") (js "done" ++ [LF] ++ [BULLET; 32]) 2].

Definition first_record : jstring := record (js "One" ++ ESC_LF ++ js "a").
Definition second_record : jstring := record (js "Two" ++ ESC_LF ++ js "b").
Definition malformed_record : jstring := js "{oops".
Definition separator_record : jstring :=
  record (SLIDE_SEPARATOR ++ ESC_LF).

Definition first_slide (i : nat) : Slide := mkSlide (js "One") (js "a") i.
Definition second_slide (i : nat) : Slide := mkSlide (js "Two") (js "b") i.

(** A well-formed record, a malformed one, a well-formed one. *)
Definition stream_with_malformed : list byte :=
  ascii_bytes (first_record ++ RECORD_BOUNDARY ++ malformed_record
                 ++ RECORD_BOUNDARY ++ second_record ++ RECORD_BOUNDARY).

(** Two records and an unterminated third one. *)
Definition stream_with_leftover : list byte :=
  ascii_bytes (first_record ++ RECORD_BOUNDARY ++ second_record
                 ++ RECORD_BOUNDARY ++ js "{" ++ quote CONTENT).

(** The record with content [Café] and, on a second line, [bon], in one
    chunk, and cut between the two bytes of [é]. *)
Definition cafe_head : list byte :=
  ascii_bytes (js "{" ++ quote CONTENT ++ js ":" ++ 34 :: js "Caf").
Definition cafe_tail : list byte :=
  ascii_bytes (ESC_LF ++ js "bon" ++ 34 :: js "}" ++ RECORD_BOUNDARY).

Definition cafe_whole : list (list byte) :=
  [cafe_head ++ [xc3; xa9] ++ cafe_tail].
Definition cafe_cut : list (list byte) :=
  [cafe_head ++ [xc3]; xa9 :: cafe_tail].

(** A stored content of two blocks; the first ends with a bullet glyph
    alone on its line. *)
Definition stored_with_bare_bullet : jstring :=
  js "One" ++ [LF] ++ js "x" ++ [LF] ++ js "-" ++ SEPARATOR_SEQUENCE
    ++ js "Two" ++ [LF] ++ js "* b".

(** A stored content whose second block is the separator token alone. *)
Definition stored_with_separator : jstring :=
  js "One" ++ [LF] ++ js "a" ++ SEPARATOR_SEQUENCE ++ SLIDE_SEPARATOR
    ++ SEPARATOR_SEQUENCE ++ js "Two" ++ [LF] ++ js "b".

End Examples.

(** ** Tactics *)

(** Closed facts are settled by evaluation. *)
Ltac by_evaluation := vm_compute; first [reflexivity | discriminate].
Ltac each_by_evaluation :=
  repeat (constructor; [by_evaluation|]); constructor.

(** * Properties *)

(** ** The primitives on concrete inputs *)

Module Checks.
Import Examples.

Example split_keeps_empty_pieces :
  split (js "ab") (js "xabyabab") = [js "x"; js "y"; []; []].
Proof. by_evaluation. Qed.

Example split_empty_string : split NEWLINE [] = [[]].
Proof. by_evaluation. Qed.

Example split_takes_leftmost_boundary :
  split RECORD_BOUNDARY (js "a" ++ [LF; LF; LF] ++ js "b")
  = [js "a"; LF :: js "b"].
Proof. by_evaluation. Qed.

Example trim_both_ends : trim (32 :: LF :: js "a b" ++ [9; 13; 160]) = js "a b".
Proof. by_evaluation. Qed.

Example replace_stars_both : replace_stars (js "**Limits**") = js "Limits".
Proof. by_evaluation. Qed.

Example replace_stars_three : replace_stars (js "***") = js "*".
Proof. by_evaluation. Qed.

Example replace_stars_four : replace_stars (js "****") = [].
Proof. by_evaluation. Qed.

Example replace_label_any_case :
  replace_label (js "SLIDE title: Limits") = js " Limits"
  /\ replace_label (js "title:Limits") = js "Limits"
  /\ replace_label (js "Slide 1: Limits") = js "Slide 1: Limits".
Proof. repeat split; by_evaluation. Qed.

Example replace_bullet_eats_white_space :
  replace_bullet (js "-   a") = BULLET :: js " a"
  /\ replace_bullet (js "*a") = BULLET :: js " a"
  /\ replace_bullet (js " - a") = js " - a".
Proof. repeat split; by_evaluation. Qed.

Example number_to_string_105 : number_to_string 105 = js "105".
Proof. by_evaluation. Qed.

Example parse_record :
  JSON.parse first_record
  = Some (JSON.JObject [(CONTENT, JSON.JString (js "One" ++ [LF] ++ js "a"))]).
Proof. by_evaluation. Qed.

Example parse_rejects :
  JSON.parse malformed_record = None
  /\ JSON.parse (js "01") = None
  /\ JSON.parse (js "[1,]") = None
  /\ JSON.parse (js "{} x") = None
  /\ JSON.parse [] = None.
Proof. repeat split; by_evaluation. Qed.

Example parse_nested :
  JSON.parse (js " [ [ ] , { } , null , true ] ")
  = Some (JSON.JArray
            [JSON.JArray []; JSON.JObject []; JSON.JNull; JSON.JBool true]).
Proof. by_evaluation. Qed.

Example truthy_numbers :
  option_map JSON.truthy (JSON.parse (js "-0.0e5")) = Some false
  /\ option_map JSON.truthy (JSON.parse (js "1e-400")) = Some false
  /\ option_map JSON.truthy (JSON.parse (js "1e-300")) = Some true.
Proof. repeat split; by_evaluation. Qed.

Example last_duplicate_wins :
  option_map SignIn.get_content
    (JSON.parse (js "{" ++ quote CONTENT ++ js ":1," ++ quote CONTENT
                   ++ js ":2}"))
  = option_map SignIn.get_content
      (JSON.parse (js "{" ++ quote CONTENT ++ js ":2}")).
Proof. by_evaluation. Qed.

Example decode_drops_first_bom :
  snd (TextDecoder.decode TextDecoder.new_decoder
         [xef; xbb; xbf; xef; xbb; xbf; x41])
  = [65279; 65].
Proof. by_evaluation. Qed.

Example decode_surrogate_pair :
  snd (TextDecoder.decode TextDecoder.new_decoder [xf0; x9f; x98; x80])
  = [55357; 56832].
Proof. by_evaluation. Qed.

Example decode_replaces_invalid :
  snd (TextDecoder.decode TextDecoder.new_decoder [xc3; x41; xed; xa0; x80])
  = [65533; 65; 65533; 65533; 65533].
Proof. by_evaluation. Qed.

Example decode_keeps_pending :
  TextDecoder.bytes_seen
    (fst (TextDecoder.decode TextDecoder.new_decoder [x41; xe2; x80])) = 1
  /\ TextDecoder.bytes_needed
       (fst (TextDecoder.decode TextDecoder.new_decoder [x41; xe2; x80])) = 2
  /\ snd (TextDecoder.decode TextDecoder.new_decoder [x41; xe2; x80]) = [65].
Proof. repeat split; by_evaluation. Qed.

Example non_string_content_throws :
  SignIn.process_part (js "{" ++ quote CONTENT ++ js ":5}") SignIn.initial_ui
  = (inr SignIn.TypeErrorExn, SignIn.initial_ui)
  /\ SignIn.process_part (js "null") SignIn.initial_ui
  = (inr SignIn.TypeErrorExn, SignIn.initial_ui)
  /\ SignIn.process_part (js "{" ++ quote CONTENT ++ js ":0}") SignIn.initial_ui
  = (inl tt, SignIn.initial_ui)
  /\ SignIn.process_part (js "[1]") SignIn.initial_ui
  = (inl tt, SignIn.initial_ui).
Proof. repeat split; by_evaluation. Qed.

Example handleSubmit_needs_title :
  SignIn.handleSubmit [32] (Some cafe_whole) SignIn.initial_ui
  = (Some SignIn.TitleRequired, SignIn.initial_ui).
Proof. by_evaluation. Qed.

Example handleSubmit_cafe :
  SignIn.handleSubmit (js "Deck") (Some cafe_cut) SignIn.initial_ui
  = (Some SignIn.PresentationGenerated,
     SignIn.mkUi [mkSlide (js "Caf" ++ [233]) (js "bon") 0] 1).
Proof. by_evaluation. Qed.

End Checks.

(** ** Prefixes, the first occurrence of a separator, [split] and [join] *)

Section SplitJoin.

Lemma starts_with_app (p r : jstring) : starts_with p (p ++ r) = true.
Proof.
  induction p as [|a p IH]; simpl; [reflexivity|].
  now rewrite N.eqb_refl.
Qed.

Lemma starts_with_inv (p s : jstring) :
  starts_with p s = true -> s = p ++ skipn (length p) s.
Proof.
  revert s; induction p as [|a p IH]; intros s H; simpl in *; [reflexivity|].
  destruct s as [|b s]; [discriminate|].
  apply andb_true_iff in H as [Hab Hp].
  apply N.eqb_eq in Hab; subst b.
  simpl. f_equal. now apply IH.
Qed.

Lemma starts_with_length (p s : jstring) :
  starts_with p s = true -> (length p <= length s)%nat.
Proof.
  intros H. apply starts_with_inv in H.
  rewrite H, length_app. lia.
Qed.

Lemma starts_with_app_r (p s t : jstring) :
  (length p <= length s)%nat -> starts_with p (s ++ t) = starts_with p s.
Proof.
  revert s; induction p as [|a p IH]; intros s Hlen; simpl; [reflexivity|].
  destruct s as [|b s]; simpl in *; [lia|].
  rewrite IH by lia. reflexivity.
Qed.

Lemma cut_inv (sep s a r : jstring) :
  cut sep s = Some (a, r) -> s = a ++ sep ++ r.
Proof.
  revert a r; induction s as [|c s IH]; intros a r H.
  - simpl in H. destruct (starts_with sep []) eqn:E; [|discriminate].
    inversion H; subst. now apply starts_with_inv in E.
  - simpl in H. destruct (starts_with sep (c :: s)) eqn:E.
    + inversion H; subst. now apply starts_with_inv in E.
    + destruct (cut sep s) as [[a' r']|] eqn:C; [|discriminate].
      inversion H; subst. simpl. f_equal. now apply IH.
Qed.

Lemma cut_shorter (sep s a r : jstring) :
  sep <> [] -> cut sep s = Some (a, r) -> (length r < length s)%nat.
Proof.
  intros Hsep H. apply cut_inv in H. subst s.
  rewrite !length_app. destruct sep; [congruence|simpl; lia].
Qed.

Lemma cut_app (sep s t a r : jstring) :
  cut sep s = Some (a, r) -> cut sep (s ++ t) = Some (a, r ++ t).
Proof.
  revert a r; induction s as [|c s IH]; intros a r H.
  - simpl in H. destruct (starts_with sep []) eqn:E; [|discriminate].
    inversion H; subst.
    destruct sep; [|discriminate]. simpl.
    destruct t; reflexivity.
  - simpl in H. destruct (starts_with sep (c :: s)) eqn:E.
    + inversion H; subst.
      pose proof (starts_with_length _ _ E) as Hlen.
      change ((c :: s) ++ t) with (c :: s ++ t) at 1.
      cbn [cut].
      change (c :: s ++ t) with ((c :: s) ++ t).
      rewrite starts_with_app_r by exact Hlen. rewrite E.
      rewrite skipn_app.
      replace (length sep - length (c :: s))%nat with 0%nat by lia.
      reflexivity.
    + destruct (cut sep s) as [[a' r']|] eqn:C; [|discriminate].
      injection H as <- <-.
      assert (Hlen : (length sep <= length (c :: s))%nat).
      { apply cut_inv in C. subst s. simpl. rewrite !length_app. lia. }
      change ((c :: s) ++ t) with (c :: s ++ t) at 1.
      cbn [cut].
      change (c :: s ++ t) with ((c :: s) ++ t).
      rewrite starts_with_app_r by exact Hlen. rewrite E.
      rewrite (IH a' r' eq_refl). reflexivity.
Qed.

Lemma split_fuel_enough (sep : jstring) (n m : nat) (s : jstring) :
  sep <> [] -> (length s <= n)%nat -> (length s <= m)%nat ->
  split_fuel n sep s = split_fuel m sep s.
Proof.
  intros Hsep. revert m s; induction n as [|n IH]; intros m s Hn Hm.
  - destruct s; [|simpl in Hn; lia].
    destruct m; cbn [split_fuel]; [reflexivity|].
    destruct (cut sep []) as [[a r]|] eqn:C; [|reflexivity].
    apply cut_shorter in C; [simpl in C; lia|assumption].
  - destruct m as [|m].
    + destruct s; [|simpl in Hm; lia]. cbn [split_fuel].
      destruct (cut sep []) as [[a r]|] eqn:C; [|reflexivity].
      apply cut_shorter in C; [simpl in C; lia|assumption].
    + cbn [split_fuel]. destruct (cut sep s) as [[a r]|] eqn:C; [|reflexivity].
      pose proof (cut_shorter _ _ _ _ Hsep C).
      f_equal. apply IH; lia.
Qed.

(** The defining equation of [split]. *)
Lemma split_unfold (sep s : jstring) :
  sep <> [] ->
  split sep s =
  match cut sep s with
  | None => [s]
  | Some (a, r) => a :: split sep r
  end.
Proof.
  intros Hsep. unfold split.
  destruct s as [|c s].
  - cbn [length split_fuel].
    destruct (cut sep []) as [[a r]|] eqn:C; [|reflexivity].
    apply cut_shorter in C; [simpl in C; lia|assumption].
  - cbn [length split_fuel].
    destruct (cut sep (c :: s)) as [[a r]|] eqn:C; [|reflexivity].
    pose proof (cut_shorter _ _ _ _ Hsep C) as Hlt. simpl in Hlt.
    f_equal. apply split_fuel_enough; [assumption|lia|lia].
Qed.

Lemma split_not_nil (sep s : jstring) : split sep s <> [].
Proof.
  unfold split. destruct (length s); cbn [split_fuel]; [discriminate|].
  destruct (cut sep s) as [[a r]|]; discriminate.
Qed.

(** Induction on the length of a string. *)
Lemma jstring_length_ind (P : jstring -> Prop) :
  (forall s, (forall t, (length t < length s)%nat -> P t) -> P s) ->
  forall s, P s.
Proof.
  intros H s.
  assert (G : forall n t, (length t < n)%nat -> P t).
  { induction n as [|n IH]; intros t Ht; [lia|].
    apply H. intros t' Ht'. apply IH. lia. }
  apply (G (S (length s))). lia.
Qed.

(** Splitting is incremental: what is appended after [s] only extends the
    last piece of [s]. *)
Lemma split_app (sep s t : jstring) :
  sep <> [] ->
  split sep (s ++ t) =
  removelast (split sep s) ++ split sep (last (split sep s) [] ++ t).
Proof.
  intros Hsep. induction s as [s IH] using jstring_length_ind.
  rewrite (split_unfold sep s Hsep).
  destruct (cut sep s) as [[a r]|] eqn:C.
  - rewrite (split_unfold sep (s ++ t) Hsep), (cut_app _ _ t _ _ C).
    rewrite (IH r (cut_shorter _ _ _ _ Hsep C)).
    pose proof (split_not_nil sep r) as Hne.
    destruct (split sep r) as [|p ps] eqn:E; [congruence|].
    reflexivity.
  - reflexivity.
Qed.

(** The last piece holds no separator. *)
Lemma cut_last_split (sep s : jstring) :
  sep <> [] -> cut sep (last (split sep s) []) = None.
Proof.
  intros Hsep. induction s as [s IH] using jstring_length_ind.
  rewrite (split_unfold sep s Hsep).
  destruct (cut sep s) as [[a r]|] eqn:C.
  - pose proof (split_not_nil sep r) as Hne.
    specialize (IH r (cut_shorter _ _ _ _ Hsep C)).
    destruct (split sep r) as [|p ps] eqn:E; [congruence|].
    exact IH.
  - exact C.
Qed.

Lemma join_cons (sep x : jstring) (l : list jstring) :
  l <> [] -> join sep (x :: l) = x ++ sep ++ join sep l.
Proof. destruct l; [congruence|reflexivity]. Qed.

(** Joining the pieces gives the string back. *)
Lemma join_split (sep s : jstring) :
  sep <> [] -> join sep (split sep s) = s.
Proof.
  intros Hsep. induction s as [s IH] using jstring_length_ind.
  rewrite (split_unfold sep s Hsep).
  destruct (cut sep s) as [[a r]|] eqn:C; [|reflexivity].
  rewrite join_cons by apply split_not_nil.
  rewrite (IH r (cut_shorter _ _ _ _ Hsep C)).
  symmetry. now apply cut_inv.
Qed.

Lemma framed_cut_none (sep b : jstring) :
  sep <> [] -> framed sep b -> cut sep b = None.
Proof.
  intros Hsep F. destruct (cut sep b) as [[a r]|] eqn:C; [|reflexivity].
  pose proof (cut_app _ _ sep _ _ C) as C'.
  unfold framed in F. rewrite F in C'. inversion C'; subst.
  apply cut_inv in C. apply (f_equal (@List.length N)) in C.
  rewrite !length_app in C. destruct sep; [congruence|simpl in C; lia].
Qed.

(** Splitting a join of framed blocks gives the blocks back. *)
Lemma split_join (sep : jstring) (blocks : list jstring) :
  sep <> [] -> blocks <> [] -> Forall (framed sep) blocks ->
  split sep (join sep blocks) = blocks.
Proof.
  intros Hsep Hne HF. induction blocks as [|b bs IH]; [congruence|].
  inversion HF as [|? ? Fb Fbs]; subst.
  destruct bs as [|b' bs'].
  - simpl. rewrite split_unfold by assumption.
    now rewrite (framed_cut_none _ _ Hsep Fb).
  - rewrite join_cons by discriminate.
    rewrite split_unfold by assumption.
    rewrite app_assoc.
    rewrite (cut_app _ _ (join sep (b' :: bs')) _ _ Fb).
    simpl app. f_equal. apply IH; [discriminate|assumption].
Qed.

End SplitJoin.

(** ** [JSON.parse] never runs out of fuel *)

Module JSONFacts.
Import JSON.

Lemma skip_ws_length (s : jstring) : (length (skip_ws s) <= length s)%nat.
Proof.
  induction s as [|c s IH]; [reflexivity|].
  cbn [skip_ws]. destruct (is_json_ws c); cbn [length]; lia.
Qed.

Lemma expect_length (c : N) (s r : jstring) :
  expect c s = Some r -> (length r < length s)%nat.
Proof.
  destruct s as [|x s]; [discriminate|]. cbn [expect].
  destruct (x =? c); [|discriminate].
  intros H; inversion H; subst. cbn [length]. lia.
Qed.

Lemma parse_chars_length (s str r : jstring) :
  parse_chars s = Some (str, r) -> (length r < length s)%nat.
Proof.
  revert str r. induction s as [s IH] using jstring_length_ind.
  intros str r. destruct s as [|c rest]; [discriminate|].
  cbn [parse_chars]. destruct (c =? 34).
  { intros H; inversion H; subst. cbn [length]. lia. }
  destruct (c =? 92).
  - destruct rest as [|e rest1]; [discriminate|].
    destruct (e =? 117).
    + destruct rest1 as [|h1 [|h2 [|h3 [|h4 rest2]]]]; try discriminate.
      destruct (hex4 h1 h2 h3 h4); [|discriminate].
      destruct (parse_chars rest2) as [[str' r']|] eqn:E; [|discriminate].
      intros H; inversion H; subst.
      apply IH in E; cbn [length] in *; lia.
    + destruct (unescape e); [|discriminate].
      destruct (parse_chars rest1) as [[str' r']|] eqn:E; [|discriminate].
      intros H; inversion H; subst.
      apply IH in E; cbn [length] in *; lia.
  - destruct (c <? 32); [discriminate|].
    destruct (parse_chars rest) as [[str' r']|] eqn:E; [|discriminate].
    intros H; inversion H; subst.
    apply IH in E; cbn [length] in *; lia.
Qed.

Lemma digits_length (acc : N) (count : nat) (s : jstring) :
  (length (snd (digits acc count s)) <= length s)%nat.
Proof.
  revert acc count; induction s as [|c s IH]; intros acc count;
    [reflexivity|].
  cbn [digits]. destruct (is_digit c); [|reflexivity].
  specialize (IH (acc * 10 + (c - 48)) (S count)). cbn [length]. lia.
Qed.

Lemma parse_exponent_length (s r : jstring) (e : Z) :
  parse_exponent s = Some (e, r) -> (length r <= length s)%nat.
Proof.
  destruct s as [|c s1]; cbn [parse_exponent].
  { intros H; inversion H; subst. reflexivity. }
  destruct ((c =? 101) || (c =? 69)).
  - assert (Hs : (length (snd (parse_sign s1)) <= length s1)%nat).
    { destruct s1 as [|x s2]; [reflexivity|]. cbn [parse_sign].
      destruct (x =? 45); [cbn; lia|]. destruct (x =? 43); cbn; lia. }
    destruct (parse_sign s1) as [neg s2]. cbn [snd] in Hs.
    pose proof (digits_length 0 0 s2) as Hd.
    destruct (digits 0 0 s2) as [[x n] s3]. cbn [snd] in Hd.
    destruct n; [discriminate|].
    intros H; inversion H; subst. cbn [length]. lia.
  - intros H; inversion H; subst. reflexivity.
Qed.

Lemma parse_fraction_length (i m : N) (n : nat) (s r : jstring) :
  parse_fraction i s = Some (m, n, r) -> (length r <= length s)%nat.
Proof.
  destruct s as [|c s1]; cbn [parse_fraction].
  { intros H; inversion H; subst. reflexivity. }
  destruct (c =? 46).
  - pose proof (digits_length i 0 s1) as Hd.
    destruct (digits i 0 s1) as [[x k] s2]. cbn [snd] in Hd.
    destruct k; [discriminate|].
    intros H; inversion H; subst. cbn [length]. lia.
  - intros H; inversion H; subst. reflexivity.
Qed.

Lemma parse_int_length (s r : jstring) (i : N) :
  parse_int s = Some (i, r) -> (length r < length s)%nat.
Proof.
  destruct s as [|c s']; [discriminate|]. cbn [parse_int].
  destruct (c =? 48).
  { intros H; inversion H; subst. cbn [length]. lia. }
  destruct (is_digit c) eqn:D; [|discriminate].
  cbn [digits]. rewrite D.
  pose proof (digits_length (0 * 10 + (c - 48)) 1 s') as Hd.
  destruct (digits (0 * 10 + (c - 48)) 1 s') as [[x k] s2]. cbn [snd] in Hd.
  intros H; inversion H; subst. cbn [length]. lia.
Qed.

Lemma parse_number_length (s r : jstring) (n : number) :
  parse_number s = Some (n, r) -> (length r < length s)%nat.
Proof.
  unfold parse_number.
  assert (Hs : (length (snd (parse_minus s)) <= length s)%nat).
  { destruct s as [|c s']; [reflexivity|]. cbn [parse_minus].
    destruct (c =? 45); cbn [snd length]; lia. }
  destruct (parse_minus s) as [neg s1]. cbn [snd] in Hs.
  destruct (parse_int s1) as [[i s2]|] eqn:I; [|discriminate].
  destruct (parse_fraction i s2) as [[[m k] s3]|] eqn:F; [|discriminate].
  destruct (parse_exponent s3) as [[e s4]|] eqn:X; [|discriminate].
  apply parse_int_length in I. apply parse_fraction_length in F.
  apply parse_exponent_length in X.
  intros H; inversion H; subst. lia.
Qed.

Lemma parse_literal_length (s : jstring) :
  match parse_literal s with
  | Parsed _ r => (length r < length s)%nat
  | SyntaxError => True
  | OutOfFuel => False
  end.
Proof.
  unfold parse_literal.
  destruct (starts_with TRUE s) eqn:T.
  { apply starts_with_length in T. rewrite length_skipn. cbn in T. lia. }
  destruct (starts_with FALSE s) eqn:F.
  { apply starts_with_length in F. rewrite length_skipn. cbn in F. lia. }
  destruct (starts_with NULL s) eqn:U.
  { apply starts_with_length in U. rewrite length_skipn. cbn in U. lia. }
  destruct (parse_number s) as [[n r]|] eqn:E; [|exact I].
  now apply parse_number_length in E.
Qed.

Lemma progress_shorter (s s' : jstring) (r : result value) :
  (length s' <= length s)%nat -> progress s' r -> progress s r.
Proof. destruct r; cbn; [lia|auto|auto]. Qed.

Lemma parse_fuel (fuel : nat) :
  (forall s, (2 * length s + 1 <= fuel)%nat ->
             progress s (parse_value fuel s))
  /\ (forall s acc, (2 * length s + 2 <= fuel)%nat ->
                    progress s (parse_elements fuel s acc))
  /\ (forall s acc, (2 * length s + 2 <= fuel)%nat ->
                    progress s (parse_members fuel s acc)).
Proof.
  induction fuel as [|fuel [IHv [IHe IHm]]].
  { repeat split; intros; lia. }
  repeat split.
  - intros s Hf. cbn [parse_value].
    destruct s as [|c r]; [exact I|].
    pose proof (skip_ws_length r) as Hws. cbn [length] in Hf.
    destruct (c =? 123).
    { destruct (expect 125 (skip_ws r)) as [r'|] eqn:E.
      - apply expect_length in E. cbn [progress length]. lia.
      - apply (progress_shorter _ (skip_ws r)); [cbn [length]; lia|].
        apply IHm. lia. }
    destruct (c =? 91).
    { destruct (expect 93 (skip_ws r)) as [r'|] eqn:E.
      - apply expect_length in E. cbn [progress length]. lia.
      - apply (progress_shorter _ (skip_ws r)); [cbn [length]; lia|].
        apply IHe. lia. }
    destruct (c =? 34).
    { unfold parse_string.
      destruct (parse_chars r) as [[str r']|] eqn:E; [|exact I].
      apply parse_chars_length in E. cbn [progress length]. lia. }
    apply parse_literal_length.
  - intros s acc Hf. cbn [parse_elements].
    specialize (IHv s ltac:(lia)).
    destruct (parse_value fuel s) as [v r| |]; [|exact I|exact IHv].
    cbn [progress] in IHv. pose proof (skip_ws_length r) as Hws.
    destruct (expect 44 (skip_ws r)) as [r'|] eqn:E.
    + apply expect_length in E. pose proof (skip_ws_length r') as Hws'.
      apply (progress_shorter _ (skip_ws r')); [lia|].
      apply IHe. lia.
    + destruct (expect 93 (skip_ws r)) as [r'|] eqn:E'; [|exact I].
      apply expect_length in E'. cbn [progress]. lia.
  - intros s acc Hf. cbn [parse_members].
    destruct (expect 34 s) as [r|] eqn:Q; [|exact I].
    apply expect_length in Q.
    destruct (parse_chars r) as [[key r1]|] eqn:K; [|exact I].
    apply parse_chars_length in K. pose proof (skip_ws_length r1) as W1.
    destruct (expect 58 (skip_ws r1)) as [r2|] eqn:C; [|exact I].
    apply expect_length in C. pose proof (skip_ws_length r2) as W2.
    specialize (IHv (skip_ws r2) ltac:(lia)).
    destruct (parse_value fuel (skip_ws r2)) as [v r3| |];
      [|exact I|exact IHv].
    cbn [progress] in IHv. pose proof (skip_ws_length r3) as W3.
    destruct (expect 44 (skip_ws r3)) as [r4|] eqn:E.
    + apply expect_length in E. pose proof (skip_ws_length r4) as W4.
      apply (progress_shorter _ (skip_ws r4)); [lia|].
      apply IHm. lia.
    + destruct (expect 125 (skip_ws r3)) as [r4|] eqn:E'; [|exact I].
      apply expect_length in E'. cbn [progress]. lia.
Qed.

(** The fuel [parse] gives is always enough: [None] is a syntax error. *)
Lemma parse_never_out_of_fuel (text : jstring) :
  parse_value (2 * length text + 2) (skip_ws text) <> OutOfFuel.
Proof.
  pose proof (skip_ws_length text) as W.
  destruct (parse_fuel (2 * length text + 2)) as [H _].
  specialize (H (skip_ws text) ltac:(lia)).
  intros E. rewrite E in H. exact H.
Qed.

End JSONFacts.

(** ** The streaming decoder *)

Module TextDecoderFacts.
Import TextDecoder TextDecoderSpec.

(** Decoding is a byte-by-byte state machine: a chunk cut in two decodes
    to the same text and leaves the same state. *)
Lemma decode_app (d : decoder) (c1 c2 : list byte) :
  decode d (c1 ++ c2) =
  let (d1, t1) := decode d c1 in
  let (d2, t2) := decode d1 c2 in (d2, t1 ++ t2).
Proof.
  revert d; induction c1 as [|b c1 IH]; intros d.
  - cbn [app decode]. destruct (decode d c2); reflexivity.
  - cbn [app decode]. destruct (decode_byte d b) as [d1 o1].
    rewrite IH. destruct (decode d1 c1) as [d2 o2].
    destruct (decode d2 c2) as [d3 o3]. now rewrite app_assoc.
Qed.

Lemma decode_chunks_concat (d : decoder) (chunks : list (list byte)) :
  decode_chunks d chunks = snd (decode d (List.concat chunks)).
Proof.
  revert d; induction chunks as [|c cs IH]; intros d; [reflexivity|].
  cbn [decode_chunks List.concat]. rewrite decode_app.
  destruct (decode d c) as [d1 t1]. rewrite IH.
  destruct (decode d1 (List.concat cs)); reflexivity.
Qed.

End TextDecoderFacts.

(** ** The read loop of [handleSubmit] *)

Module StreamFacts.
Import TextDecoder TextDecoderSpec TextDecoderFacts SignIn StreamSpec.

Lemma boundary_not_nil : RECORD_BOUNDARY <> [].
Proof. discriminate. Qed.

Lemma for_parts_app (ps1 ps2 : list jstring) (u : ui) :
  for_parts (ps1 ++ ps2) u =
  match for_parts ps1 u with
  | (inl _, u') => for_parts ps2 u'
  | (inr e, u') => (inr e, u')
  end.
Proof.
  revert u; induction ps1 as [|p ps1 IH]; intros u; [reflexivity|].
  cbn [app for_parts]. unfold bind.
  destruct (process_part p u) as [[[]|e] u1]; [apply IH|reflexivity].
Qed.

(** A round of the loop runs the complete records of the accumulated text
    and keeps the last piece. *)
Lemma on_chunk_eq (value : list byte) (l : locals) (u : ui) :
  on_chunk value l u =
  let (d, text) := decode (decoder l) value in
  let parts := split RECORD_BOUNDARY (accumulatedData l ++ text) in
  match for_parts (removelast parts) u with
  | (inl _, u') => (inl (mkLocals d (last parts [])), u')
  | (inr e, u') => (inr e, u')
  end.
Proof.
  unfold on_chunk. destruct (decode (decoder l) value) as [d text].
  cbv zeta.
  destruct (1 <? length _)%nat eqn:E; [reflexivity|].
  apply Nat.ltb_ge in E.
  rewrite split_unfold in * by apply boundary_not_nil.
  destruct (cut RECORD_BOUNDARY (accumulatedData l ++ text)) as [[a r]|];
    [|reflexivity].
  pose proof (split_not_nil RECORD_BOUNDARY r).
  destruct (split RECORD_BOUNDARY r); [congruence|simpl in E; lia].
Qed.

Lemma removelast_split_app (s t : jstring) :
  complete_records (s ++ t) =
  complete_records s
    ++ complete_records (last (split RECORD_BOUNDARY s) [] ++ t).
Proof.
  unfold complete_records.
  rewrite split_app by apply boundary_not_nil.
  apply removelast_app, split_not_nil.
Qed.

(** What the read loop does depends on the chunks only through the text
    they decode to: it runs the complete records of the buffered text
    followed by that text, in order. *)
Lemma read_loop_spec (chunks : list (list byte)) (l : locals) (u : ui) :
  cut RECORD_BOUNDARY (accumulatedData l) = None ->
  read_loop chunks l u =
  for_parts
    (complete_records
       (accumulatedData l ++ snd (decode (decoder l) (List.concat chunks)))) u.
Proof.
  revert l u; induction chunks as [|c cs IH]; intros l u Hacc.
  - cbn [read_loop List.concat decode snd]. rewrite app_nil_r.
    unfold complete_records.
    rewrite split_unfold, Hacc by apply boundary_not_nil. reflexivity.
  - cbn [read_loop List.concat]. unfold bind. rewrite on_chunk_eq.
    rewrite decode_app.
    destruct (decode (decoder l) c) as [d text].
    destruct (decode d (List.concat cs)) as [d2 text2] eqn:D2.
    cbn [snd]. rewrite app_assoc, removelast_split_app, for_parts_app.
    fold (complete_records (accumulatedData l ++ text)).
    destruct (for_parts (complete_records (accumulatedData l ++ text)) u)
      as [[[]|e] u1]; [|reflexivity].
    rewrite IH by (apply cut_last_split, boundary_not_nil).
    cbn [decoder accumulatedData]. rewrite D2. reflexivity.
Qed.

Lemma stream_response_spec (chunks : list (list byte)) :
  stream_response chunks =
  outcome (for_parts (complete_records (decoded (List.concat chunks))) initial_ui).
Proof.
  unfold stream_response. rewrite read_loop_spec by reflexivity.
  reflexivity.
Qed.

End StreamFacts.

(** ** Records of the stream *)

Module RecordFacts.
Import TextDecoder TextDecoderSpec TextDecoderFacts SignIn StreamSpec StreamFacts.

(** A record either leaves the state as it is, or throws and leaves the
    state as it is, or appends exactly one slide whose index is the
    number of slides so far. *)
Lemma process_part_cases (p : jstring) (u : ui) :
  process_part p u = (inl tt, u)
  \/ (exists e, process_part p u = (inr e, u))
  \/ (exists text,
        process_part p u =
        (inl tt,
         mkUi (generatedSlides u
                 ++ [parseSlide text (length (generatedSlides u))])
              (S (currentSlideIndex u)))).
Proof.
  unfold process_part.
  destruct (is_empty p); [now left|].
  unfold bind, JSON_parse.
  destruct (JSON.parse p) as [slide|]; [|right; left; now eexists].
  destruct slide as [|b|n|s|l|ms]; cbn;
    try (now left); try (right; left; now eexists).
  destruct (JSON.get CONTENT ms) as [v|]; [|now left].
  destruct (JSON.truthy v); cbn; [|now left].
  destruct v as [|b|n|s|l|ms']; try (right; left; now eexists).
  destruct (JSON.jstring_eqb (trim s) SLIDE_SEPARATOR); [now left|].
  right; right. now exists s.
Qed.

Lemma process_part_malformed (p : jstring) (u : ui) :
  p <> [] -> JSON.parse p = None ->
  process_part p u = (inr SyntaxErrorExn, u).
Proof.
  intros Hp Hbad. unfold process_part.
  destruct p; [congruence|]. cbn [is_empty].
  unfold bind, JSON_parse. now rewrite Hbad.
Qed.

Lemma jstring_eqb_refl (s : jstring) : JSON.jstring_eqb s s = true.
Proof.
  unfold JSON.jstring_eqb. rewrite Nat.eqb_refl.
  rewrite <- (app_nil_r s) at 2. apply starts_with_app.
Qed.

Lemma jstring_eqb_eq (a b : jstring) :
  JSON.jstring_eqb a b = true <-> a = b.
Proof.
  split; [|intros ->; apply jstring_eqb_refl].
  unfold JSON.jstring_eqb. intros H.
  apply andb_true_iff in H as [Hlen Hpre].
  apply Nat.eqb_eq in Hlen. apply starts_with_inv in Hpre.
  rewrite Hlen, skipn_all, app_nil_r in Hpre. congruence.
Qed.

Lemma process_part_separator (p : jstring) (ms : list (jstring * JSON.value))
    (c : jstring) (u : ui) :
  JSON.parse p = Some (JSON.JObject ms) ->
  JSON.get CONTENT ms = Some (JSON.JString c) ->
  trim c = SLIDE_SEPARATOR ->
  process_part p u = (inl tt, u).
Proof.
  intros Hp Hget Htrim. unfold process_part.
  destruct (is_empty p); [reflexivity|].
  unfold bind, JSON_parse. rewrite Hp. cbn. rewrite Hget.
  rewrite Htrim, jstring_eqb_refl.
  now destruct (negb (JSON.truthy (JSON.JString c))).
Qed.

Lemma contiguous_snoc (slides : list Slide) (t c : jstring) :
  contiguous slides -> contiguous (slides ++ [mkSlide t c (length slides)]).
Proof.
  unfold contiguous. intros H.
  rewrite map_app, length_app, H. cbn [map index length].
  rewrite Nat.add_1_r, seq_S. reflexivity.
Qed.

Lemma process_part_contiguous (p : jstring) (u : ui) :
  contiguous (generatedSlides u) ->
  contiguous (generatedSlides (snd (process_part p u))).
Proof.
  intros H.
  destruct (process_part_cases p u) as [E|[[e E]|[text E]]]; rewrite E;
    cbn [snd generatedSlides]; try assumption.
  now apply contiguous_snoc.
Qed.

Lemma for_parts_contiguous (parts : list jstring) (u : ui) :
  contiguous (generatedSlides u) ->
  contiguous (generatedSlides (snd (for_parts parts u))).
Proof.
  revert u; induction parts as [|p ps IH]; intros u H; [exact H|].
  cbn [for_parts]. unfold bind.
  pose proof (process_part_contiguous p u H) as H1.
  destruct (process_part p u) as [[[]|e] u1]; cbn [snd] in *.
  - now apply IH.
  - exact H1.
Qed.

Lemma on_chunk_contiguous (value : list byte) (l : locals) (u : ui) :
  contiguous (generatedSlides u) ->
  contiguous (generatedSlides (snd (on_chunk value l u))).
Proof.
  intros H. rewrite on_chunk_eq.
  destruct (decode (decoder l) value) as [d text]. cbv zeta.
  pose proof (for_parts_contiguous
    (removelast (split RECORD_BOUNDARY (accumulatedData l ++ text))) u H) as H1.
  destruct (for_parts _ u) as [[[]|e] u1]; exact H1.
Qed.

Lemma read_loop_contiguous (chunks : list (list byte)) (l : locals) (u : ui) :
  contiguous (generatedSlides u) ->
  contiguous (generatedSlides (snd (read_loop chunks l u))).
Proof.
  revert l u; induction chunks as [|c cs IH]; intros l u H; [exact H|].
  cbn [read_loop]. unfold bind.
  pose proof (on_chunk_contiguous c l u H) as H1.
  destruct (on_chunk c l u) as [[l'|e] u1]; cbn [snd] in *.
  - now apply IH.
  - exact H1.
Qed.

Lemma mapi_from_index (f : jstring -> nat -> Slide) (i : nat)
    (blocks : list jstring) :
  (forall b k, index (f b k) = k) ->
  map index (mapi_from f i blocks) = seq i (length blocks).
Proof.
  intros Hf. revert i; induction blocks as [|b bs IH]; intros i; [reflexivity|].
  cbn [mapi_from map length seq]. now rewrite Hf, IH.
Qed.

Lemma mapi_from_length {A B} (f : A -> nat -> B) (i : nat) (l : list A) :
  length (mapi_from f i l) = length l.
Proof.
  revert i; induction l as [|x l IH]; intros i; [reflexivity|].
  cbn [mapi_from length]. now rewrite IH.
Qed.

Lemma mapi_contiguous (f : jstring -> nat -> Slide) (blocks : list jstring) :
  (forall b k, index (f b k) = k) -> contiguous (mapi f blocks).
Proof.
  intros Hf. unfold contiguous, mapi.
  now rewrite mapi_from_index, mapi_from_length.
Qed.

(** A record without line feed, as a JSON text on one line is, is framed
    by the record boundary. *)
Lemma no_lf_framed_boundary (r : jstring) :
  no_lf r = true -> framed RECORD_BOUNDARY r.
Proof.
  unfold framed. induction r as [|c r IH]; intros H; [reflexivity|].
  cbn [no_lf forallb] in H. apply andb_true_iff in H as [Hc Hr].
  apply negb_true_iff in Hc.
  cbn [app cut RECORD_BOUNDARY starts_with].
  rewrite (N.eqb_sym LF c), Hc. cbn [andb].
  now rewrite (IH Hr).
Qed.

(** The text of framed records followed by a leftover without boundary
    splits into exactly these records and the leftover. *)
Lemma split_frame (records : list jstring) (leftover : jstring) :
  Forall (framed RECORD_BOUNDARY) records ->
  cut RECORD_BOUNDARY leftover = None ->
  split RECORD_BOUNDARY (frame records ++ leftover) = records ++ [leftover].
Proof.
  intros HF Hl. induction records as [|r rs IH].
  - cbn [frame app]. rewrite split_unfold, Hl by apply boundary_not_nil.
    reflexivity.
  - inversion HF as [|? ? Fr Frs]; subst.
    cbn [frame]. rewrite split_unfold by apply boundary_not_nil.
    replace ((r ++ RECORD_BOUNDARY ++ frame rs) ++ leftover)
      with ((r ++ RECORD_BOUNDARY) ++ (frame rs ++ leftover))
      by now rewrite <- !app_assoc.
    rewrite (cut_app _ _ (frame rs ++ leftover) _ _ Fr).
    cbn [app]. now rewrite IH.
Qed.

Lemma complete_records_frame (records : list jstring) (leftover : jstring) :
  Forall (framed RECORD_BOUNDARY) records ->
  cut RECORD_BOUNDARY leftover = None ->
  complete_records (frame records ++ leftover) = records.
Proof.
  intros HF Hl. unfold complete_records.
  rewrite split_frame by assumption. apply removelast_last.
Qed.

End RecordFacts.

(** ** White space, lines and decimal numerals *)

Module TextFacts.

Lemma drop_ws_blank (s : jstring) : forallb is_ws s = true -> drop_ws s = [].
Proof.
  induction s as [|c s IH]; [reflexivity|].
  cbn [forallb drop_ws]. intros H. apply andb_true_iff in H as [Hc Hs].
  rewrite Hc. now apply IH.
Qed.

Lemma trim_blank (s : jstring) : forallb is_ws s = true -> trim s = [].
Proof.
  intros H. unfold trim, trim_start, trim_end.
  now rewrite (drop_ws_blank s H).
Qed.

Lemma drop_ws_head (s r : jstring) (c : N) :
  drop_ws s = c :: r -> is_ws c = false.
Proof.
  induction s as [|x s IH]; [discriminate|].
  cbn [drop_ws]. destruct (is_ws x) eqn:E; [exact IH|].
  intros H. inversion H; subst. exact E.
Qed.

(** [drop_ws] removes a prefix of white space. *)
Lemma drop_ws_decompose (s : jstring) :
  exists w, s = w ++ drop_ws s /\ forallb is_ws w = true.
Proof.
  induction s as [|x s [w [Hs Hw]]]; [now exists []|].
  cbn [drop_ws]. destruct (is_ws x) eqn:E.
  - exists (x :: w). cbn [app forallb]. rewrite E, Hw.
    split; [now f_equal|reflexivity].
  - now exists [].
Qed.

Lemma drop_ws_app_keep (x y : jstring) (c : N) :
  is_ws c = false -> drop_ws (x ++ c :: y) <> [].
Proof.
  intros Hc. induction x as [|a x IH]; cbn [app drop_ws].
  - rewrite Hc. discriminate.
  - destruct (is_ws a); [exact IH|discriminate].
Qed.

(** A trimmed text is empty or starts with a code unit that is not white
    space. *)
Lemma trim_head (s r : jstring) (c : N) : trim s = c :: r -> is_ws c = false.
Proof.
  unfold trim, trim_start, trim_end. intros H.
  destruct (drop_ws_decompose (rev (drop_ws s))) as [w [Hrev _]].
  apply (f_equal (@rev N)) in Hrev.
  rewrite rev_involutive, rev_app_distr, H in Hrev.
  cbn [app] in Hrev. now apply drop_ws_head in Hrev.
Qed.

Lemma non_blank_head (c : N) (r : jstring) :
  is_ws c = false -> non_blank (c :: r) = true.
Proof.
  intros Hc. unfold non_blank, trim, trim_start, trim_end.
  cbn [drop_ws]. rewrite Hc. cbn [rev].
  pose proof (drop_ws_app_keep (rev r) [] c Hc) as H.
  destruct (drop_ws (rev r ++ [c])) as [|x xs] eqn:E; [congruence|].
  cbn [rev]. now destruct (rev xs).
Qed.

Lemma trim_end_clean (s : jstring) : ends_clean s = true -> trim_end s = s.
Proof.
  unfold ends_clean, trim_end. intros H.
  destruct (rev s) as [|c r] eqn:E; [discriminate|].
  cbn [drop_ws]. apply negb_true_iff in H. rewrite H, <- E.
  apply rev_involutive.
Qed.

Lemma trim_clean (c : N) (r : jstring) :
  is_ws c = false -> ends_clean (c :: r) = true -> trim (c :: r) = c :: r.
Proof.
  intros Hc He. unfold trim, trim_start. cbn [drop_ws]. rewrite Hc.
  now apply trim_end_clean.
Qed.

Lemma ends_clean_app (x y : jstring) :
  ends_clean y = true -> ends_clean (x ++ y) = true.
Proof.
  unfold ends_clean. rewrite rev_app_distr.
  destruct (rev y); [discriminate|]. now cbn [app].
Qed.

Lemma drop_ws_app_kept (s t : jstring) :
  drop_ws s <> [] -> drop_ws (s ++ t) = drop_ws s ++ t.
Proof.
  induction s as [|c s IH]; [intros H; now destruct H|].
  cbn [app drop_ws]. destruct (is_ws c); [exact IH|reflexivity].
Qed.

(** What precedes a text that is not blank is out of reach of
    [trimEnd]. *)
Lemma trim_end_app (x y : jstring) :
  trim_end y <> [] -> trim_end (x ++ y) = x ++ trim_end y.
Proof.
  unfold trim_end. intros H. rewrite rev_app_distr, drop_ws_app_kept.
  - now rewrite rev_app_distr, rev_involutive.
  - intros E. apply H. now rewrite E.
Qed.

(** A join ends with its last element; what precedes it is empty or ends
    with the separator. *)
Lemma join_snoc (sep : jstring) (init : list jstring) :
  exists p,
    (p = [] \/ exists q, p = q ++ sep)
    /\ forall l, join sep (init ++ [l]) = p ++ l.
Proof.
  induction init as [|a init [p [Hp IH]]]; [exists []; split; [now left|easy]|].
  exists (a ++ sep ++ p). split.
  - right. destruct Hp as [->|[q ->]].
    + exists a. now rewrite app_nil_r.
    + exists (a ++ sep ++ q). now rewrite <- !app_assoc.
  - intros l. cbn [app].
    rewrite join_cons by (destruct init; discriminate).
    now rewrite IH, <- !app_assoc.
Qed.

(** Lines: the separator is the single line feed. *)

Lemma newline_not_nil : NEWLINE <> [].
Proof. discriminate. Qed.

Lemma cut_newline_skip (l r : jstring) :
  no_lf l = true -> cut NEWLINE (l ++ LF :: r) = Some (l, r).
Proof.
  induction l as [|x l IH]; intros H; [reflexivity|].
  cbn [no_lf forallb] in H. apply andb_true_iff in H as [Hx Hl].
  cbn [app cut NEWLINE starts_with].
  rewrite N.eqb_sym. apply negb_true_iff in Hx. rewrite Hx.
  cbn [andb]. now rewrite (IH Hl).
Qed.

Lemma no_lf_framed (l : jstring) : no_lf l = true -> framed NEWLINE l.
Proof. intros H. unfold framed. now apply cut_newline_skip. Qed.

Lemma cut_newline_before (s a r : jstring) :
  cut NEWLINE s = Some (a, r) -> no_lf a = true.
Proof.
  revert a r; induction s as [|x s IH]; intros a r; [discriminate|].
  cbn [cut NEWLINE starts_with].
  destruct (LF =? x) eqn:E; cbn [andb].
  - intros H; now inversion H.
  - destruct (cut NEWLINE s) as [[a' r']|]; [|discriminate].
    intros H; inversion H; subst. cbn [no_lf forallb].
    rewrite N.eqb_sym, E. cbn. now apply (IH a' r).
Qed.

Lemma cut_newline_none (s : jstring) :
  cut NEWLINE s = None -> no_lf s = true.
Proof.
  induction s as [|x s IH]; [reflexivity|].
  cbn [cut NEWLINE starts_with].
  destruct (LF =? x) eqn:E; cbn [andb]; [discriminate|].
  destruct (cut NEWLINE s) as [[a' r']|]; [discriminate|].
  intros _. cbn [no_lf forallb]. rewrite N.eqb_sym, E. cbn. now apply IH.
Qed.

(** No line of a text holds a line feed. *)
Lemma split_newline_no_lf (s : jstring) :
  Forall (fun l => no_lf l = true) (split NEWLINE s).
Proof.
  induction s as [s IH] using jstring_length_ind.
  rewrite split_unfold by apply newline_not_nil.
  destruct (cut NEWLINE s) as [[a r]|] eqn:C.
  - constructor; [now apply cut_newline_before in C|].
    apply IH. now apply (cut_shorter NEWLINE s a r newline_not_nil).
  - constructor; [now apply cut_newline_none|constructor].
Qed.

Lemma split_join_lines (lines : list jstring) :
  lines <> [] -> Forall (fun l => no_lf l = true) lines ->
  split NEWLINE (join NEWLINE lines) = lines.
Proof.
  intros Hne H. apply split_join; [apply newline_not_nil|exact Hne|].
  eapply Forall_impl; [|exact H]. intros l. apply no_lf_framed.
Qed.

(** Decimal numerals. *)

Lemma string_of_uint_digits (u : Decimal.uint) :
  Forall (fun c => JSON.is_digit c = true) (js (NilEmpty.string_of_uint u)).
Proof.
  induction u; cbn; constructor; try reflexivity; assumption.
Qed.

(** The decimal numeral of a number is a non-empty sequence of digits. *)
Lemma number_to_string_digits (n : N) :
  exists d ds, number_to_string n = d :: ds
               /\ Forall (fun c => JSON.is_digit c = true) (d :: ds).
Proof.
  unfold number_to_string, NilZero.string_of_uint.
  destruct (N.to_uint n) as [|u|u|u|u|u|u|u|u|u|u];
    [exists 48, []; split; [reflexivity|repeat constructor]|..];
    cbn [NilEmpty.string_of_uint];
    (eexists; eexists; split; [reflexivity|]);
    (constructor; [reflexivity|apply string_of_uint_digits]).
Qed.

(** The digits of [string_of_uint] denote what [of_uint] reads. *)
Lemma decimal_value_acc (u : Decimal.uint) (acc : positive) :
  fold_left (fun a c => 10 * a + (c - 48))
    (js (NilEmpty.string_of_uint u)) (N.pos acc)
  = N.pos (Pos.of_uint_acc u acc).
Proof.
  revert acc; induction u as [|u IH|u IH|u IH|u IH|u IH|u IH|u IH|u IH|u IH|u IH];
    intros acc; [reflexivity|..];
    cbn [NilEmpty.string_of_uint Pos.of_uint_acc];
    match goal with
    | |- context [js (String ?c ?s)] =>
        change (js (String c s)) with (N_of_ascii c :: js s);
        let v := eval vm_compute in (N_of_ascii c) in
        change (N_of_ascii c) with v
    end;
    cbn [fold_left]; rewrite <- IH; f_equal; lia.
Qed.

Lemma decimal_value_string_of_uint (u : Decimal.uint) :
  decimal_value (js (NilEmpty.string_of_uint u)) = N.of_uint u.
Proof.
  unfold decimal_value, N.of_uint.
  induction u as [|u IH|u IH|u IH|u IH|u IH|u IH|u IH|u IH|u IH|u IH];
    [reflexivity|..];
    cbn [NilEmpty.string_of_uint Pos.of_uint];
    match goal with
    | |- context [js (String ?c ?s)] =>
        change (js (String c s)) with (N_of_ascii c :: js s);
        let v := eval vm_compute in (N_of_ascii c) in
        change (N_of_ascii c) with v
    end;
    cbn [fold_left]; [exact IH|..];
    match goal with
    | |- fold_left _ _ ?a = _ =>
        let v := eval vm_compute in a in change a with v
    end;
    apply decimal_value_acc.
Qed.

(** [String(n)] denotes [n]. *)
Lemma decimal_value_number_to_string (n : N) :
  decimal_value (number_to_string n) = n.
Proof.
  unfold number_to_string, NilZero.string_of_uint.
  rewrite <- (DecimalN.Unsigned.of_to n) at 2.
  destruct (N.to_uint n) eqn:E; try apply decimal_value_string_of_uint.
  reflexivity.
Qed.

(** [String(n)] has no leading zero, unless it is [0]. *)
Lemma number_to_string_leading_zero (n : N) (rest : jstring) :
  number_to_string n = 48 :: rest -> rest = [].
Proof.
  unfold number_to_string, NilZero.string_of_uint.
  pose proof (DecimalN.Unsigned.to_of (N.to_uint n)) as U.
  rewrite DecimalN.Unsigned.of_to in U.
  destruct (N.to_uint n) as [|u|u|u|u|u|u|u|u|u|u] eqn:E;
    cbn [NilEmpty.string_of_uint];
    match goal with
    | |- context [js (String ?c ?s)] =>
        change (js (String c s)) with (N_of_ascii c :: js s);
        let v := eval vm_compute in (N_of_ascii c) in
        change (N_of_ascii c) with v
    | _ => idtac
    end;
    intros H; try discriminate H.
  - now injection H as <-.
  - unfold Decimal.unorm in U. rewrite DecimalFacts.nzhead_D0 in U.
    destruct (Decimal.nzhead u) as [|v|v|v|v|v|v|v|v|v|v] eqn:Z;
      try discriminate U.
    + injection U as U. subst u. now injection H as <-.
    + now apply DecimalFacts.nzhead_nonzero in Z.
Qed.

(** [String(n)] is the decimal numeral of [n]. *)
Lemma number_to_string_numeral (n : nat) :
  decimal_numeral (number_to_string (N.of_nat n)) n.
Proof.
  destruct (number_to_string_digits (N.of_nat n)) as [d [ds [E Hd]]].
  repeat split.
  - rewrite E. discriminate.
  - rewrite E. exact Hd.
  - apply number_to_string_leading_zero.
  - apply decimal_value_number_to_string.
Qed.

End TextFacts.

(** ** The two [parseSlide] *)

Module NormalizerFacts.
Import TextFacts.


Lemma Forall_tl_filter {A} (P : A -> Prop) (f : A -> bool) (l : list A) :
  Forall P l -> Forall P (tl (filter f l)).
Proof.
  intros H.
  assert (G : Forall P (filter f l)).
  { induction H as [|x l Hx Hl IH]; cbn [filter]; [constructor|].
    destruct (f x); [now constructor|assumption]. }
  destruct G; [constructor|assumption].
Qed.

Lemma kept_lines_no_lf (slideText : jstring) :
  Forall (fun l => no_lf l = true) (tl (kept_lines slideText)).
Proof. apply Forall_tl_filter, split_newline_no_lf. Qed.

Lemma default_title_not_nil (index : nat) : default_title index <> [].
Proof. discriminate. Qed.

Lemma title_of_not_nil (lines : list jstring) (index : nat) :
  title_of lines index <> [].
Proof.
  unfold title_of. destruct lines as [|first rest];
    [apply default_title_not_nil|].
  destruct (trim (replace_label (replace_stars first))) eqn:E; cbn [is_empty];
    [apply default_title_not_nil|discriminate].
Qed.

Lemma parseSlide_blank (slideText : jstring) (index : nat) :
  forallb is_ws slideText = true ->
  PresentationView.parseSlide slideText index
    = mkSlide (default_title index) [] index
  /\ SignIn.parseSlide slideText index
    = mkSlide (default_title index) [] index.
Proof.
  intros H. unfold PresentationView.parseSlide, SignIn.parseSlide.
  rewrite (trim_blank slideText H). split; reflexivity.
Qed.

End NormalizerFacts.

(** ** Export and re-hydration *)

Module ExportFacts.
Import TextFacts NormalizerFacts RecordFacts.

Lemma no_lf_app (x y : jstring) : no_lf (x ++ y) = no_lf x && no_lf y.
Proof. apply forallb_app. Qed.

Lemma digits_no_lf (ds : jstring) :
  Forall (fun c => JSON.is_digit c = true) ds -> no_lf ds = true.
Proof.
  induction 1 as [|d ds Hd _ IH]; [reflexivity|].
  cbn [no_lf forallb]. fold (no_lf ds). rewrite IH, andb_true_r.
  unfold JSON.is_digit in Hd. apply andb_true_iff in Hd as [H1 _].
  apply N.leb_le in H1. apply negb_true_iff, N.eqb_neq. unfold LF. lia.
Qed.

Lemma well_formed_title_parts (t : jstring) :
  well_formed_title t = true ->
  ends_clean t = true /\ no_lf t = true /\ ends_with STARS t = false.
Proof.
  unfold well_formed_title. intros H.
  apply andb_true_iff in H as [H12 H3].
  apply andb_true_iff in H12 as [H1 H2].
  apply negb_true_iff in H3. auto.
Qed.

Section TitleLine.

Variables (slide : Slide) (i : nat).

Lemma title_line_head :
  exists rest, title_line slide i = 83 :: rest.
Proof. eexists. reflexivity. Qed.

Lemma title_line_non_blank : non_blank (title_line slide i) = true.
Proof.
  destruct title_line_head as [r E]. rewrite E. now apply non_blank_head.
Qed.

Lemma title_line_label : replace_label (title_line slide i) = title_line slide i.
Proof.
  unfold replace_label, title_line.
  destruct (number_to_string_digits (N.of_nat (i + 1))) as [d [ds [E Hd]]].
  rewrite E. inversion Hd as [|? ? Hdig _]; subst.
  unfold JSON.is_digit in Hdig. apply andb_true_iff in Hdig as [H1 H2].
  apply N.leb_le in H1. apply N.leb_le in H2.
  assert (F : fold_case d = d).
  { unfold fold_case. destruct (97 <=? d) eqn:A; [|reflexivity].
    apply N.leb_le in A. lia. }
  assert (G : (84 =? d) = false) by (apply N.eqb_neq; lia).
  cbn -[N.eqb fold_case]. rewrite F.
  change (fold_case 84) with 84. rewrite G, !N.eqb_refl.
  change (84 =? fold_case 83) with false.
  reflexivity.
Qed.

Hypothesis Hclean : ends_clean (title slide) = true.
Hypothesis Hlf : no_lf (title slide) = true.

Lemma title_line_no_lf : no_lf (title_line slide i) = true.
Proof.
  unfold title_line. rewrite !no_lf_app, Hlf.
  destruct (number_to_string_digits (N.of_nat (i + 1))) as [d' [ds' [E Hd']]].
  rewrite E, (digits_no_lf _ Hd'). reflexivity.
Qed.

Lemma title_line_ends_clean : ends_clean (title_line slide i) = true.
Proof. unfold title_line. now repeat apply ends_clean_app. Qed.

Lemma title_line_trim : trim (title_line slide i) = title_line slide i.
Proof.
  pose proof title_line_ends_clean as H.
  destruct title_line_head as [rest E]. rewrite E in *.
  now apply trim_clean.
Qed.

Hypothesis Hstars : ends_with STARS (title slide) = false.

Lemma title_line_stars : replace_stars (title_line slide i) = title_line slide i.
Proof.
  unfold replace_stars.
  assert (P : strip_prefix STARS (title_line slide i) = title_line slide i)
    by reflexivity.
  rewrite P. unfold strip_suffix.
  assert (E : ends_with STARS (title_line slide i) = false).
  { unfold ends_with, title_line. rewrite !rev_app_distr.
    pose proof Hclean as Hc. pose proof Hstars as Hs.
    unfold ends_clean in Hc. unfold ends_with in Hs.
    destruct (rev (title slide)) as [|x [|y r]]; [discriminate| |exact Hs].
    cbn. now rewrite andb_false_r. }
  now rewrite E.
Qed.

(** Re-parsing keeps the whole exported first line as title. *)
Lemma title_of_title_line (rest : list jstring) (k : nat) :
  title_of (title_line slide i :: rest) k = title_line slide i.
Proof.
  unfold title_of.
  rewrite title_line_stars, title_line_label, title_line_trim.
  destruct title_line_head as [r E]. now rewrite E.
Qed.

End TitleLine.

Lemma export_block_eq (slide : Slide) (i : nat) :
  export_block slide i = title_line slide i ++ LF :: LF :: content slide.
Proof.
  unfold export_block, title_line. now rewrite <- !app_assoc.
Qed.

Lemma filter_all_non_blank (ls : list jstring) :
  Forall (fun l => non_blank l = true) ls -> filter non_blank ls = ls.
Proof.
  induction 1 as [|x l Hx _ IH]; [reflexivity|].
  cbn [filter]. now rewrite Hx, IH.
Qed.

Lemma well_formed_parts (slide : Slide) :
  well_formed slide = true ->
  ends_clean (title slide) = true /\ no_lf (title slide) = true
  /\ ends_with STARS (title slide) = false
  /\ well_formed_content (content slide) = true.
Proof.
  unfold well_formed. intros H. apply andb_true_iff in H as [Ht Hc].
  apply well_formed_title_parts in Ht as [H1 [H2 H3]]. auto.
Qed.

Section Block.

Variables (slide : Slide) (i : nat).
Hypothesis Htitle_clean : ends_clean (title slide) = true.
Hypothesis Htitle_lf : no_lf (title slide) = true.
Hypothesis Hcontent : well_formed_content (content slide) = true.

(** The content is empty, or its lines are well formed and it ends
    cleanly or with the bare bullet. *)
Lemma content_cases :
  content slide = []
  \/ (content slide <> []
      /\ forallb well_formed_line (split NEWLINE (content slide)) = true
      /\ (ends_clean (content slide) = true
          \/ last (split NEWLINE (content slide)) [] = BARE_BULLET)).
Proof.
  pose proof Hcontent as H. unfold well_formed_content in H.
  destruct (content slide) as [|c cs] eqn:E; [now left|right].
  cbn [is_empty orb] in H.
  apply andb_true_iff in H as [H1 H2]. apply orb_true_iff in H2.
  repeat split; [easy|exact H1|].
  destruct H2 as [H2|H2]; [now left|right]. now apply jstring_eqb_eq.
Qed.

Lemma lines_replace_bullet (ls : list jstring) :
  forallb well_formed_line ls = true -> map replace_bullet ls = ls.
Proof.
  induction ls as [|l ls IH]; [reflexivity|].
  cbn [forallb map]. intros H. apply andb_true_iff in H as [Hl Hls].
  unfold well_formed_line in Hl. apply andb_true_iff in Hl as [_ Hl].
  apply jstring_eqb_eq in Hl. now rewrite Hl, IH.
Qed.

Lemma lines_all_non_blank (ls : list jstring) :
  forallb well_formed_line ls = true ->
  Forall (fun l => non_blank l = true) ls.
Proof.
  intros H. apply Forall_forall. intros l Hl.
  apply (proj1 (forallb_forall _ _) H) in Hl.
  unfold well_formed_line in Hl. now apply andb_true_iff in Hl.
Qed.

(** What [trimEnd] leaves of a content that is not empty: lines without
    line feed, none of them blank, which the bullet rule turns back into
    the lines of the content. *)
Lemma trimmed_content :
  content slide <> [] ->
  exists ls,
    ls <> []
    /\ trim_end (content slide) = join NEWLINE ls
    /\ trim_end (content slide) <> []
    /\ Forall (fun l => no_lf l = true) ls
    /\ Forall (fun l => non_blank l = true) ls
    /\ map replace_bullet ls = split NEWLINE (content slide).
Proof.
  intros Hne.
  destruct content_cases as [C|[_ [Hls [Hc|Hb]]]]; [congruence| |].
  - exists (split NEWLINE (content slide)).
    rewrite (trim_end_clean _ Hc), (join_split _ _ newline_not_nil).
    repeat split.
    + apply split_not_nil.
    + exact Hne.
    + apply split_newline_no_lf.
    + now apply lines_all_non_blank.
    + now apply lines_replace_bullet.
  - pose proof (@app_removelast_last jstring _ []
                  (split_not_nil NEWLINE (content slide))) as S.
    rewrite Hb in S.
    pose proof (join_split NEWLINE (content slide) newline_not_nil) as J.
    pose proof (split_newline_no_lf (content slide)) as Hlf.
    rewrite S in J, Hlf, Hls. rewrite S.
    set (init := removelast (split NEWLINE (content slide))) in *.
    destruct (join_snoc NEWLINE init) as [p [_ Hp]].
    rewrite Hp in J.
    apply Forall_app in Hlf as [Hlf _].
    rewrite forallb_app in Hls. apply andb_true_iff in Hls as [Hls _].
    assert (T : trim_end (content slide) = p ++ [BULLET]).
    { rewrite <- J. unfold trim_end, BARE_BULLET. rewrite rev_app_distr.
      cbn [rev app drop_ws]. change (is_ws 32) with true.
      change (is_ws BULLET) with false. cbv iota. cbn [rev].
      now rewrite rev_involutive. }
    exists (init ++ [[BULLET]]). repeat split.
    + destruct init; discriminate.
    + now rewrite T, Hp.
    + rewrite T. destruct p; discriminate.
    + apply Forall_app. split; [exact Hlf|now repeat constructor].
    + apply Forall_app. split; [now apply lines_all_non_blank|].
      now repeat constructor.
    + rewrite map_app, (lines_replace_bullet init Hls). reflexivity.
Qed.

(** The trimmed block starts with the exported first line. *)
Lemma trim_export_block :
  trim (export_block slide i) =
  match content slide with
  | [] => title_line slide i
  | _ :: _ => title_line slide i ++ LF :: LF :: trim_end (content slide)
  end.
Proof.
  rewrite export_block_eq.
  pose proof (title_line_ends_clean slide i Htitle_clean) as Hc.
  destruct (title_line_head slide i) as [rest E].
  pose proof trimmed_content as T.
  destruct (content slide) as [|c cs].
  - rewrite E. unfold trim, trim_start. cbn [app drop_ws].
    change (is_ws 83) with false. cbv iota.
    change (83 :: rest ++ [LF; LF]) with ((83 :: rest) ++ [LF; LF]).
    rewrite <- E. unfold trim_end. rewrite rev_app_distr.
    cbn [rev app drop_ws]. change (is_ws LF) with true. cbv iota.
    apply (trim_end_clean _ Hc).
  - destruct T as [ls [_ [_ [Ht _]]]]; [discriminate|].
    rewrite E at 1. unfold trim, trim_start. cbn [app drop_ws].
    change (is_ws 83) with false. cbv iota.
    change (83 :: rest ++ LF :: LF :: c :: cs)
      with ((83 :: rest) ++ [LF; LF] ++ c :: cs).
    rewrite <- E, app_assoc, (trim_end_app _ _ Ht), <- app_assoc.
    reflexivity.
Qed.

Lemma export_block_is_slide_block : is_slide_block (export_block slide i) = true.
Proof.
  unfold is_slide_block. rewrite trim_export_block.
  assert (H : exists r, match content slide with
                        | [] => title_line slide i
                        | _ :: _ =>
                            title_line slide i
                              ++ LF :: LF :: trim_end (content slide)
                        end = 83 :: r).
  { destruct (content slide); eexists; reflexivity. }
  destruct H as [r ->]. cbn [is_empty negb andb].
  unfold JSON.jstring_eqb, SLIDE_SEPARATOR. cbn [starts_with].
  change (83 =? 45) with false. now rewrite andb_false_r.
Qed.

(** The lines of the trimmed block that [parseSlide] keeps. *)
Lemma kept_lines_export_block :
  kept_lines (export_block slide i) =
  title_line slide i ::
  match content slide with
  | [] => []
  | _ :: _ => split NEWLINE (trim_end (content slide))
  end.
Proof.
  unfold kept_lines. rewrite trim_export_block.
  pose proof (title_line_no_lf slide i Htitle_lf) as Hlf.
  pose proof (title_line_non_blank slide i) as Hnb.
  pose proof trimmed_content as T.
  destruct (content slide) as [|c cs].
  - rewrite split_unfold by apply newline_not_nil.
    rewrite (framed_cut_none _ _ newline_not_nil (no_lf_framed _ Hlf)).
    cbn [filter]. now rewrite Hnb.
  - destruct T as [ls [Hne [J [_ [Hls [Hlb _]]]]]]; [discriminate|].
    rewrite J.
    assert (K : title_line slide i ++ LF :: LF :: join NEWLINE ls
                = join NEWLINE (title_line slide i :: [] :: ls)).
    { rewrite join_cons by discriminate. now rewrite join_cons by exact Hne. }
    rewrite K, split_join_lines; [|discriminate|].
    + cbn [filter]. rewrite Hnb. change (non_blank []) with false.
      cbv iota. rewrite (filter_all_non_blank ls Hlb).
      now rewrite (split_join_lines ls Hne Hls).
    + constructor; [exact Hlf|]. constructor; [reflexivity|exact Hls].
Qed.

(** The separator sequence does not occur in the block before its end. *)

Lemma cut_cons_skip (sep s a r : jstring) (c : N) :
  starts_with sep (c :: s) = false -> cut sep s = Some (a, r) ->
  cut sep (c :: s) = Some (c :: a, r).
Proof. intros H C. cbn [cut]. now rewrite H, C. Qed.

Lemma separator_needs_lf (c : N) (s : jstring) :
  (c =? LF) = false -> starts_with SEPARATOR_SEQUENCE (c :: s) = false.
Proof.
  intros H. unfold SEPARATOR_SEQUENCE. cbn [starts_with].
  rewrite N.eqb_sym. fold LF. now rewrite H.
Qed.

Lemma separator_needs_lf_lf (c : N) (s : jstring) :
  (c =? LF) = false -> starts_with SEPARATOR_SEQUENCE (LF :: c :: s) = false.
Proof.
  intros H. unfold SEPARATOR_SEQUENCE. cbn [starts_with].
  rewrite (N.eqb_sym 10 c). fold LF. rewrite H. now rewrite andb_false_r.
Qed.

Lemma separator_needs_hyphen (c : N) (s : jstring) :
  (c =? 45) = false ->
  starts_with SEPARATOR_SEQUENCE (LF :: LF :: c :: s) = false.
Proof.
  intros H. unfold SEPARATOR_SEQUENCE. cbn [starts_with].
  rewrite (N.eqb_sym 45 c), H. now rewrite !andb_false_r.
Qed.

Lemma cut_separator_skip (x s a r : jstring) :
  no_lf x = true -> cut SEPARATOR_SEQUENCE s = Some (a, r) ->
  cut SEPARATOR_SEQUENCE (x ++ s) = Some (x ++ a, r).
Proof.
  intros Hx C. induction x as [|c x IH]; [exact C|].
  cbn [no_lf forallb] in Hx. apply andb_true_iff in Hx as [Hc Hx].
  apply negb_true_iff in Hc.
  cbn [app]. apply cut_cons_skip; [now apply separator_needs_lf|now apply IH].
Qed.

(** Non-empty lines without line feed, joined by line feeds and followed
    by the separator sequence: its first occurrence is the final one. *)
Lemma lines_framed (ls : list jstring) :
  ls <> [] ->
  Forall (fun l => no_lf l = true /\ l <> []) ls ->
  framed SEPARATOR_SEQUENCE (join NEWLINE ls).
Proof.
  unfold framed. intros Hne H. induction H as [|l ls [Hl Hl0] Hls IH];
    [congruence|].
  destruct ls as [|l2 ls2].
  - cbn [join]. rewrite <- (app_nil_r l) at 2.
    now apply cut_separator_skip.
  - rewrite join_cons by discriminate.
    specialize (IH ltac:(discriminate)).
    inversion Hls as [|? ? [Hl2 Hl20] _]; subst.
    destruct l2 as [|y l2]; [congruence|].
    cbn [no_lf forallb] in Hl2. apply andb_true_iff in Hl2 as [Hy _].
    apply negb_true_iff in Hy.
    rewrite <- !app_assoc. apply cut_separator_skip; [exact Hl|].
    cbn [NEWLINE app]. apply cut_cons_skip.
    + destruct ls2; cbn [join app]; now apply separator_needs_lf_lf.
    + exact IH.
Qed.

Lemma well_formed_line_head (l : jstring) :
  well_formed_line l = true ->
  exists x r, l = x :: r /\ (x =? 45) = false.
Proof.
  unfold well_formed_line. intros H. apply andb_true_iff in H as [Hnb Hrb].
  destruct l as [|x r]; [discriminate|].
  exists x, r. split; [reflexivity|].
  apply jstring_eqb_eq in Hrb. cbn [replace_bullet] in Hrb.
  destruct (x =? 45) eqn:E; [|reflexivity].
  apply N.eqb_eq in E. subst x. discriminate.
Qed.

(** An exported block is framed by the separator sequence. *)
Lemma export_block_framed :
  framed SEPARATOR_SEQUENCE (export_block slide i).
Proof.
  unfold framed. rewrite export_block_eq, <- app_assoc.
  pose proof (title_line_no_lf slide i Htitle_lf) as Hlf.
  destruct content_cases as [C|[C [Hls _]]].
  - rewrite C. now apply cut_separator_skip.
  - pose proof (split_not_nil NEWLINE (content slide)) as Hne.
    pose proof (split_newline_no_lf (content slide)) as Hnl.
    pose proof (join_split NEWLINE (content slide) newline_not_nil) as J.
    destruct (split NEWLINE (content slide)) as [|l ls] eqn:E; [congruence|].
    assert (F : framed SEPARATOR_SEQUENCE (content slide)).
    { rewrite <- J. apply lines_framed; [discriminate|].
      apply Forall_forall. intros l' Hin. split.
      - now apply (proj1 (Forall_forall _ _) Hnl).
      - apply (proj1 (forallb_forall _ _) Hls) in Hin.
        apply well_formed_line_head in Hin as [x [r [-> _]]]. discriminate. }
    cbn [forallb] in Hls. apply andb_true_iff in Hls as [Hl _].
    apply well_formed_line_head in Hl as [x [r [-> Hx]]].
    inversion Hnl as [|? ? Hxl _]; subst.
    cbn [no_lf forallb] in Hxl. apply andb_true_iff in Hxl as [Hx' _].
    apply negb_true_iff in Hx'.
    assert (Hc : exists cs, content slide = x :: cs).
    { rewrite <- J. destruct ls; cbn [join app]; eexists; reflexivity. }
    destruct Hc as [cs Hc]. unfold framed in F. rewrite Hc in *.
    apply cut_separator_skip; [exact Hlf|].
    cbn [app]. apply cut_cons_skip; [now apply separator_needs_hyphen|].
    apply cut_cons_skip; [now apply separator_needs_lf_lf|].
    exact F.
Qed.

Hypothesis Hstars : ends_with STARS (title slide) = false.

(** Re-parsing an exported block: the exported first line becomes the
    title, the content comes back. *)
Lemma parseSlide_export_block (k : nat) :
  PresentationView.parseSlide (export_block slide i) k
  = mkSlide (title_line slide i) (content slide) k.
Proof.
  unfold PresentationView.parseSlide. fold (kept_lines (export_block slide i)).
  rewrite kept_lines_export_block, (title_of_title_line slide i Htitle_clean Hstars).
  cbn [tl]. f_equal.
  pose proof trimmed_content as T.
  destruct (content slide) as [|c cs]; [reflexivity|].
  destruct T as [ls [Hne [J [_ [Hls [_ Hrb]]]]]]; [discriminate|].
  rewrite J, (split_join_lines ls Hne Hls), Hrb.
  apply join_split, newline_not_nil.
Qed.

End Block.

Lemma separator_not_nil : SEPARATOR_SEQUENCE <> [].
Proof. discriminate. Qed.

Lemma mapi_from_not_nil {A B} (f : A -> nat -> B) (k : nat) (l : list A) :
  l <> [] -> mapi_from f k l <> [].
Proof. destruct l; [congruence|discriminate]. Qed.

Lemma filter_all {A} (f : A -> bool) (l : list A) :
  Forall (fun x => f x = true) l -> filter f l = l.
Proof.
  induction 1 as [|x l Hx _ IH]; [reflexivity|].
  cbn [filter]. now rewrite Hx, IH.
Qed.

Lemma mapi_from_Forall {A B} (P : A -> Prop) (Q : B -> Prop)
    (f : A -> nat -> B) (k : nat) (l : list A) :
  (forall x n, P x -> Q (f x n)) -> Forall P l -> Forall Q (mapi_from f k l).
Proof.
  intros HPQ H. revert k; induction H as [|x l Hx _ IH]; intros k;
    cbn [mapi_from]; constructor; auto.
Qed.

Lemma mapi_from_compose {A B C} (f : B -> nat -> C) (g : A -> nat -> B)
    (h : A -> nat -> C) (P : A -> Prop) (k : nat) (l : list A) :
  (forall x n, P x -> f (g x n) n = h x n) -> Forall P l ->
  mapi_from f k (mapi_from g k l) = mapi_from h k l.
Proof.
  intros Hfg H. revert k; induction H as [|x l Hx _ IH]; intros k;
    [reflexivity|].
  cbn [mapi_from]. now rewrite Hfg, IH.
Qed.

(** Re-hydrating the exported text of well-formed slides gives one slide
    per exported slide, in order: the exported first line as title, the
    content, and the position as index. *)
Lemma parsedSlides_export_text (slides : list Slide) :
  Forall (fun s => well_formed s = true) slides ->
  PresentationView.parsedSlides (PresentationView.export_text slides)
  = mapi reparsed slides.
Proof.
  intros Hwf.
  unfold PresentationView.parsedSlides, PresentationView.export_text.
  destruct slides as [|s0 rest] eqn:E; [reflexivity|]. rewrite <- E in *.
  assert (Hne : slides <> []) by (subst; discriminate). clear E.
  rewrite split_join.
  - rewrite filter_all.
    + unfold mapi. apply (mapi_from_compose _ _ _ _ _ _ (fun s n Hs =>
        match well_formed_parts s Hs with
        | conj H1 (conj H2 (conj H3 H4)) =>
            parseSlide_export_block s n H1 H2 H4 H3 n
        end) Hwf).
    + unfold mapi. apply (mapi_from_Forall _ _ _ _ _
        (fun s n Hs =>
           match well_formed_parts s Hs with
           | conj H1 (conj H2 (conj H3 H4)) =>
               export_block_is_slide_block s n H1 H4
           end) Hwf).
  - apply separator_not_nil.
  - now apply mapi_from_not_nil.
  - unfold mapi. apply (mapi_from_Forall _ _ _ _ _
      (fun s n Hs =>
         match well_formed_parts s Hs with
         | conj H1 (conj H2 (conj H3 H4)) => export_block_framed s n H2 H4
         end) Hwf).
Qed.

End ExportFacts.

(** * The claims *)

Import TextDecoderSpec StreamSpec.
Import TextFacts NormalizerFacts TextDecoderFacts RecordFacts StreamFacts
  ExportFacts.

Lemma mapi_from_reparsed (k : nat) (slides : list Slide) :
  length (mapi_from reparsed k slides) = length slides
  /\ map index (mapi_from reparsed k slides) = seq k (length slides)
  /\ map content (mapi_from reparsed k slides) = map content slides
  /\ map title (mapi_from reparsed k slides) = mapi_from title_line k slides.
Proof.
  revert k; induction slides as [|s slides IH]; intros k; [now repeat split|].
  destruct (IH (S k)) as [H1 [H2 [H3 H4]]].
  cbn [mapi_from length map seq reparsed]. cbn [index content title].
  now rewrite H1, H2, H3, H4.
Qed.

(** C1, as stated, fails: the exported first line [Slide 1: A] comes back
    whole as the title of the re-parsed slide, not the title [A]. *)
Lemma C1_counterexample :
  PresentationView.parsedSlides (PresentationView.export_text Examples.one_slide)
    = [mkSlide (js "Slide 1: A") (js "b") 0]
  /\ PresentationView.parsedSlides
       (PresentationView.export_text Examples.one_slide)
     <> Examples.one_slide.
Proof. split; by_evaluation. Qed.

(** C1, amended: for every sequence of N well-formed Slides with indices
    0..N-1 (title not empty, on one line, not ending in white space or in
    [**]; content empty or made of non-blank lines with canonical bullets,
    with no white space at its end unless its last line is the bare bullet
    ["• "]), exporting it with [downloadAsTXT] and re-splitting and
    re-parsing the text as [load] does yields exactly N Slides with the
    same index and the same content, whose title is the exported first
    line ["Slide {n}: {title}"]. *)
Theorem C1_export_reparse (slides : list Slide) :
  Forall (fun s => well_formed s = true) slides ->
  contiguous slides ->
  let back :=
    PresentationView.parsedSlides (PresentationView.export_text slides) in
  length back = length slides
  /\ map index back = map index slides
  /\ map content back = map content slides
  /\ map title back = mapi title_line slides.
Proof.
  intros Hwf Hidx back. subst back.
  rewrite (parsedSlides_export_text slides Hwf). unfold mapi.
  destruct (mapi_from_reparsed 0 slides) as [H1 [H2 [H3 H4]]].
  unfold contiguous in Hidx. now rewrite Hidx.
Qed.

Lemma C1_export_reparse_witness :
  Forall (fun s => well_formed s = true) Examples.viewer_deck
  /\ contiguous Examples.viewer_deck
  /\ map title
       (PresentationView.parsedSlides
          (PresentationView.export_text Examples.viewer_deck))
     = [js "Slide 1: Limits"; js "Slide 2: Break"; js "Slide 3: Summary"]
  /\ map content
       (PresentationView.parsedSlides
          (PresentationView.export_text Examples.viewer_deck))
     = [BULLET :: js " first" ++ [LF] ++ js "second"; [];
        js "done" ++ [LF] ++ [BULLET; 32]].
Proof.
  assert (W : Forall (fun s => well_formed s = true) Examples.viewer_deck)
    by each_by_evaluation.
  assert (I : contiguous Examples.viewer_deck) by reflexivity.
  split; [exact W|]. split; [exact I|].
  destruct (C1_export_reparse Examples.viewer_deck W I) as [_ [_ [C T]]].
  rewrite T, C. split; by_evaluation.
Defined.

(** C2, as stated, fails: after a malformed record the loop is left by
    the exception; the record that follows is never appended. *)
Lemma C2_counterexample :
  SignIn.stream_response [Examples.stream_with_malformed]
    = (Some SignIn.SyntaxErrorExn, SignIn.mkUi [Examples.first_slide 0] 1)
  /\ SignIn.generatedSlides
       (snd (SignIn.stream_response [Examples.stream_with_malformed]))
     <> [Examples.first_slide 0; Examples.second_slide 1]
  /\ SignIn.stream_response
       [Examples.ascii_bytes
          (Examples.first_record ++ RECORD_BOUNDARY
             ++ Examples.second_record ++ RECORD_BOUNDARY)]
     = (None,
        SignIn.mkUi [Examples.first_slide 0; Examples.second_slide 1] 2).
Proof. repeat split; by_evaluation. Qed.

(** C2, amended: a malformed (non-decodable) record payload aborts the
    read loop.  [JSON.parse] throws, the single handler around the whole
    stream catches the exception and reports the failure, and no later
    record is processed; the Slides appended from the records before the
    malformed one are kept, in stream order with contiguous indices. *)
Theorem C2_malformed_record_aborts (chunks : list (list byte))
    (before after : list jstring) (bad leftover : jstring) (u1 : SignIn.ui) :
  decoded (List.concat chunks) = frame (before ++ bad :: after) ++ leftover ->
  Forall (framed RECORD_BOUNDARY) (before ++ bad :: after) ->
  cut RECORD_BOUNDARY leftover = None ->
  bad <> [] ->
  JSON.parse bad = None ->
  SignIn.for_parts before SignIn.initial_ui = (inl tt, u1) ->
  SignIn.stream_response chunks = (Some SignIn.SyntaxErrorExn, u1)
  /\ contiguous (SignIn.generatedSlides u1)
  /\ forall title u,
       is_empty (trim title) = false ->
       SignIn.handleSubmit title (Some chunks) u
       = (Some SignIn.GenerationFailed, u1).
Proof.
  intros Htext Hframed Hleft Hne Hbad Hbefore.
  assert (R : SignIn.stream_response chunks = (Some SignIn.SyntaxErrorExn, u1)).
  { rewrite stream_response_spec, Htext.
    rewrite complete_records_frame by assumption.
    rewrite for_parts_app, Hbefore. cbn [SignIn.for_parts].
    unfold SignIn.bind. now rewrite process_part_malformed. }
  split; [exact R|]. split.
  - pose proof (for_parts_contiguous before SignIn.initial_ui eq_refl) as H.
    now rewrite Hbefore in H.
  - intros title u Ht. unfold SignIn.handleSubmit. now rewrite Ht, R.
Qed.

Lemma C2_malformed_record_aborts_witness :
  SignIn.stream_response [Examples.stream_with_malformed]
  = (Some SignIn.SyntaxErrorExn, SignIn.mkUi [Examples.first_slide 0] 1).
Proof.
  refine (proj1 (C2_malformed_record_aborts
    [Examples.stream_with_malformed] [Examples.first_record]
    [Examples.second_record] Examples.malformed_record []
    (SignIn.mkUi [Examples.first_slide 0] 1) _ _ _ _ _ _)).
  - by_evaluation.
  - each_by_evaluation.
  - by_evaluation.
  - discriminate.
  - by_evaluation.
  - by_evaluation.
Defined.

(** C3: chunk-boundary independence.  Two chunkings of the same bytes
    give the same outcome of the read loop (the same Slide sequence, the
    same current index, the same exception if any), and the text decoded
    chunk by chunk is the text of the whole byte stream, also when a cut
    falls inside a multi-byte character. *)
Theorem C3_chunk_boundary_independence (chunks1 chunks2 : list (list byte)) :
  List.concat chunks1 = List.concat chunks2 ->
  SignIn.stream_response chunks1 = SignIn.stream_response chunks2
  /\ decode_chunks TextDecoder.new_decoder chunks1
     = decode_chunks TextDecoder.new_decoder chunks2
  /\ decode_chunks TextDecoder.new_decoder chunks1
     = decoded (List.concat chunks1).
Proof.
  intros H. rewrite !stream_response_spec, !decode_chunks_concat, H.
  repeat split.
Qed.

Lemma C3_chunk_boundary_independence_witness :
  List.concat Examples.cafe_cut = List.concat Examples.cafe_whole
  /\ SignIn.stream_response Examples.cafe_cut
     = SignIn.stream_response Examples.cafe_whole
  /\ SignIn.generatedSlides (snd (SignIn.stream_response Examples.cafe_cut))
     = [mkSlide (js "Caf" ++ [233]) (js "bon") 0].
Proof.
  assert (E : List.concat Examples.cafe_cut = List.concat Examples.cafe_whole)
    by by_evaluation.
  split; [exact E|].
  split; [exact (proj1 (C3_chunk_boundary_independence _ _ E))|by_evaluation].
Defined.

Lemma filter_app_skip {A} (f : A -> bool) (l1 l2 : list A) (x : A) :
  f x = false -> filter f (l1 ++ x :: l2) = filter f (l1 ++ l2).
Proof.
  intros H. rewrite !filter_app. cbn [filter]. now rewrite H.
Qed.

Lemma separator_block_filtered (b : jstring) :
  trim b = SLIDE_SEPARATOR -> is_slide_block b = false.
Proof.
  intros H. unfold is_slide_block. rewrite H, jstring_eqb_refl.
  apply andb_false_r.
Qed.

(** C4: a record whose [content], trimmed, is the token
    [---SLIDE_SEPARATOR---] is a no-op of the streaming path: it leaves
    the Slides and the current index as they are, so the loop over the
    records behaves as if the record were absent.  A block of the stored
    content whose trimmed text is the token is filtered before the indices
    are assigned, so re-hydration yields the Slides of the other blocks
    with the same indices. *)
Theorem C4_separator_record_is_noop (payload : jstring)
    (members : list (jstring * JSON.value)) (c : jstring)
    (stored block : jstring) (before after : list jstring) :
  JSON.parse payload = Some (JSON.JObject members) ->
  JSON.get CONTENT members = Some (JSON.JString c) ->
  trim c = SLIDE_SEPARATOR ->
  split SEPARATOR_SEQUENCE stored = before ++ block :: after ->
  trim block = SLIDE_SEPARATOR ->
  (forall u, SignIn.process_part payload u = (inl tt, u))
  /\ (forall records1 records2 u,
        SignIn.for_parts (records1 ++ payload :: records2) u
        = SignIn.for_parts (records1 ++ records2) u)
  /\ PresentationView.parsedSlides stored
     = mapi PresentationView.parseSlide (filter is_slide_block (before ++ after))
  /\ SignIn.selectedSlides stored
     = mapi SignIn.parseSlide (filter is_slide_block (before ++ after)).
Proof.
  intros Hparse Hget Htrim Hsplit Hblock.
  assert (P : forall u, SignIn.process_part payload u = (inl tt, u))
    by (intros u; exact (process_part_separator _ _ _ u Hparse Hget Htrim)).
  split; [exact P|]. split.
  - intros r1 r2 u. rewrite !for_parts_app.
    destruct (SignIn.for_parts r1 u) as [[[]|e] u']; [|reflexivity].
    cbn [SignIn.for_parts]. unfold SignIn.bind. now rewrite P.
  - unfold PresentationView.parsedSlides, SignIn.selectedSlides.
    rewrite Hsplit, (filter_app_skip _ _ _ _ (separator_block_filtered _ Hblock)).
    split; reflexivity.
Qed.

Lemma C4_separator_record_is_noop_witness :
  SignIn.for_parts
    [Examples.first_record; Examples.separator_record; Examples.second_record]
    SignIn.initial_ui
  = SignIn.for_parts [Examples.first_record; Examples.second_record]
      SignIn.initial_ui
  /\ PresentationView.parsedSlides Examples.stored_with_separator
     = [Examples.first_slide 0; Examples.second_slide 1].
Proof.
  destruct (C4_separator_record_is_noop Examples.separator_record
    [(CONTENT, JSON.JString (SLIDE_SEPARATOR ++ [LF]))]
    (SLIDE_SEPARATOR ++ [LF]) Examples.stored_with_separator SLIDE_SEPARATOR
    [js "One" ++ [LF] ++ js "a"] [js "Two" ++ [LF] ++ js "b"]
    ltac:(by_evaluation) ltac:(by_evaluation) ltac:(by_evaluation)
    ltac:(by_evaluation) ltac:(by_evaluation)) as [_ [H1 [H2 _]]].
  split.
  - exact (H1 [Examples.first_record] [Examples.second_record]
             SignIn.initial_ui).
  - rewrite H2. by_evaluation.
Defined.

(** C5: what is left in the buffer when the stream ends is discarded.
    When the decoded text is a sequence of boundary-terminated records
    followed by a leftover without boundary, the outcome of the read loop
    is the outcome of processing exactly these records: the leftover is
    never parsed, never emitted, and raises no error. *)
Theorem C5_trailing_leftover_discarded (chunks : list (list byte))
    (records : list jstring) (leftover : jstring) :
  decoded (List.concat chunks) = frame records ++ leftover ->
  Forall (framed RECORD_BOUNDARY) records ->
  cut RECORD_BOUNDARY leftover = None ->
  SignIn.stream_response chunks
  = outcome (SignIn.for_parts records SignIn.initial_ui).
Proof.
  intros Htext Hframed Hleft.
  rewrite stream_response_spec, Htext.
  now rewrite complete_records_frame.
Qed.

Lemma C5_trailing_leftover_discarded_witness :
  SignIn.stream_response [Examples.stream_with_leftover]
  = (None, SignIn.mkUi [Examples.first_slide 0; Examples.second_slide 1] 2).
Proof.
  rewrite (C5_trailing_leftover_discarded [Examples.stream_with_leftover]
    [Examples.first_record; Examples.second_record]
    (js "{" ++ Examples.quote CONTENT)
    ltac:(by_evaluation) ltac:(each_by_evaluation) ltac:(by_evaluation)).
  by_evaluation.
Defined.

(** The bullet rule [line.replace(/^[*\-•]\s*/, '• ')]: a leading [*],
    [-] or [•], together with the white space after it, becomes ["• "];
    any other line is left as it is. *)
Lemma replace_bullet_cases :
  (forall glyph rest,
     In glyph [42; 45; BULLET] ->
     replace_bullet (glyph :: rest) = BULLET :: 32 :: drop_ws rest)
  /\ (forall c rest,
        ~ In c [42; 45; BULLET] -> replace_bullet (c :: rest) = c :: rest).
Proof.
  split.
  - intros glyph rest [<-|[<-|[<-|[]]]]; reflexivity.
  - intros c rest Hc. cbn [replace_bullet]. unfold is_bullet_glyph.
    destruct (c =? 42) eqn:E1; [apply N.eqb_eq in E1; subst; cbn in Hc; tauto|].
    destruct (c =? 45) eqn:E2; [apply N.eqb_eq in E2; subst; cbn in Hc; tauto|].
    destruct (c =? BULLET) eqn:E3;
      [apply N.eqb_eq in E3; subst; cbn in Hc; tauto|].
    reflexivity.
Qed.

(** C6 holds of [parseSlide] of [PresentationView.tsx] and fails of
    [parseSlide] of [SignIn.tsx].  On the block of lines [**Derivatives**],
    [- First point], [* Second point], [• Third point], at any index, the
    viewer's normalizer yields the title [Derivatives] and the content
    lines [• First point], [• Second point], [• Third point], as C6 says;
    the normalizer of the generation page yields the same title and the
    content lines [- First point], [* Second point], [• Third point]: it
    lacks the bullet rule. *)
Theorem C6_streaming_normalizer_keeps_glyphs (i : nat) :
  PresentationView.parseSlide Examples.derivatives i
    = mkSlide (js "Derivatives") Examples.derivatives_canonical i
  /\ SignIn.parseSlide Examples.derivatives i
    = mkSlide (js "Derivatives") Examples.derivatives_raw i
  /\ split NEWLINE Examples.derivatives_canonical
    = [BULLET :: js " First point"; BULLET :: js " Second point";
       BULLET :: js " Third point"]
  /\ split NEWLINE Examples.derivatives_raw
    = [js "- First point"; js "* Second point"; BULLET :: js " Third point"]
  /\ SignIn.parseSlide Examples.derivatives i
     <> PresentationView.parseSlide Examples.derivatives i.
Proof.
  assert (V : PresentationView.parseSlide Examples.derivatives i
              = mkSlide (js "Derivatives") Examples.derivatives_canonical i).
  { unfold PresentationView.parseSlide.
    replace (filter non_blank (split NEWLINE (trim Examples.derivatives)))
      with [js "**Derivatives**"; js "- First point"; js "* Second point";
            BULLET :: js " Third point"] by by_evaluation.
    f_equal; by_evaluation. }
  assert (G : SignIn.parseSlide Examples.derivatives i
              = mkSlide (js "Derivatives") Examples.derivatives_raw i).
  { unfold SignIn.parseSlide.
    replace (filter non_blank (split NEWLINE (trim Examples.derivatives)))
      with [js "**Derivatives**"; js "- First point"; js "* Second point";
            BULLET :: js " Third point"] by by_evaluation.
    f_equal; by_evaluation. }
  split; [exact V|]. split; [exact G|].
  split; [by_evaluation|]. split; [by_evaluation|].
  rewrite V, G. intros H. injection H as H. revert H. by_evaluation.
Qed.



(** C8: an empty or all-white-space block at index 4 normalizes to the
    title [Slide 5] and an empty content, in both normalizers; at any
    index [i] such a block gets the title ["Slide "] followed by
    [String(i + 1)], the decimal numeral of [i + 1], and an empty content.
    Whenever the stripped title source (the first kept line without its
    [**] markers and its label, trimmed) is empty, the title is that same
    text; and the title of a normalized Slide is never empty. *)
Theorem C8_default_title (blank : jstring) :
  forallb is_ws blank = true ->
  PresentationView.parseSlide blank 4 = mkSlide (js "Slide 5") [] 4
  /\ SignIn.parseSlide blank 4 = mkSlide (js "Slide 5") [] 4
  /\ (forall i,
        decimal_numeral (number_to_string (N.of_nat (i + 1))) (i + 1)
        /\ PresentationView.parseSlide blank i
           = mkSlide (js "Slide " ++ number_to_string (N.of_nat (i + 1))) [] i
        /\ SignIn.parseSlide blank i
           = mkSlide (js "Slide " ++ number_to_string (N.of_nat (i + 1))) [] i)
  /\ (forall slideText first rest i,
        kept_lines slideText = first :: rest ->
        trim (replace_label (replace_stars first)) = [] ->
        title (PresentationView.parseSlide slideText i)
          = js "Slide " ++ number_to_string (N.of_nat (i + 1))
        /\ title (SignIn.parseSlide slideText i)
          = js "Slide " ++ number_to_string (N.of_nat (i + 1)))
  /\ (forall slideText i,
        title (PresentationView.parseSlide slideText i) <> []
        /\ title (SignIn.parseSlide slideText i) <> []).
Proof.
  intros H.
  destruct (parseSlide_blank blank 4 H) as [H1 H2].
  split; [exact H1|]. split; [exact H2|]. split; [|split].
  - intros i. split; [apply number_to_string_numeral|].
    exact (parseSlide_blank blank i H).
  - intros slideText first rest i K E.
    unfold PresentationView.parseSlide, SignIn.parseSlide. cbn [title].
    fold (kept_lines slideText). rewrite K. unfold title_of.
    rewrite E. split; reflexivity.
  - intros slideText i. split; apply title_of_not_nil.
Qed.

Lemma C8_default_title_witness :
  PresentationView.parseSlide Examples.white_space_only 4
    = mkSlide (js "Slide 5") [] 4
  /\ PresentationView.parseSlide [] 4 = mkSlide (js "Slide 5") [] 4
  /\ PresentationView.parseSlide Examples.white_space_only 99
     = mkSlide (js "Slide 100") [] 99
  /\ title (PresentationView.parseSlide Examples.label_only 9) = js "Slide 10".
Proof.
  split; [|split; [|split]].
  - exact (proj1 (C8_default_title Examples.white_space_only eq_refl)).
  - exact (proj1 (C8_default_title [] eq_refl)).
  - destruct (C8_default_title Examples.white_space_only eq_refl)
      as [_ [_ [D _]]].
    destruct (D 99%nat) as [_ [T _]]. rewrite T. by_evaluation.
  - destruct (C8_default_title [] eq_refl) as [_ [_ [_ [D _]]]].
    destruct (D Examples.label_only (js "**Title:**") [js "body"] 9%nat
                ltac:(by_evaluation) ltac:(by_evaluation)) as [T _].
    rewrite T. by_evaluation.
Defined.

(** C9: the Slide indices of a Presentation are 0, 1, 2, ... in order.  A
    record either leaves the Slides as they are or appends exactly one
    Slide whose index is the current Slide count; the invariant is kept by
    every iteration of the loop over the records and of the loop over the
    chunks, holds when the stream ends or is aborted, and is kept by
    re-hydration from stored content. *)
Theorem C9_indices_contiguous (u : SignIn.ui) (slides : list Slide) :
  contiguous (SignIn.generatedSlides u) ->
  contiguous slides ->
  (forall record,
     let slides' := SignIn.generatedSlides (snd (SignIn.process_part record u)) in
     slides' = SignIn.generatedSlides u
     \/ exists s, slides' = SignIn.generatedSlides u ++ [s]
                  /\ index s = length (SignIn.generatedSlides u))
  /\ (forall records,
        contiguous (SignIn.generatedSlides (snd (SignIn.for_parts records u))))
  /\ (forall value l,
        contiguous (SignIn.generatedSlides (snd (SignIn.on_chunk value l u))))
  /\ (forall chunks l,
        contiguous (SignIn.generatedSlides (snd (SignIn.read_loop chunks l u))))
  /\ (forall chunks,
        contiguous
          (SignIn.generatedSlides (snd (SignIn.stream_response chunks))))
  /\ (forall stored, contiguous (PresentationView.parsedSlides stored))
  /\ (forall stored, contiguous (PresentationView.load stored slides))
  /\ (forall stored,
        contiguous
          (SignIn.generatedSlides (SignIn.handleSelectPresentation stored u))).
Proof.
  intros H Hs. repeat split.
  - intros record slides'. subst slides'.
    destruct (process_part_cases record u) as [E|[[e E]|[text E]]];
      rewrite E; cbn [snd SignIn.generatedSlides]; [now left|now left|right].
    eexists. split; reflexivity.
  - intros records. now apply for_parts_contiguous.
  - intros value l. now apply on_chunk_contiguous.
  - intros chunks l. now apply read_loop_contiguous.
  - intros chunks. unfold SignIn.stream_response.
    pose proof (read_loop_contiguous chunks SignIn.initial_locals
                  SignIn.initial_ui eq_refl) as R.
    now destruct (SignIn.read_loop _ _ _) as [[[]|e] u'].
  - intros stored. now apply mapi_contiguous.
  - intros [c|]; [|exact Hs]. unfold PresentationView.load.
    destruct (is_empty c); [exact Hs|].
    now apply mapi_contiguous.
  - intros [c|]; [|exact H]. unfold SignIn.handleSelectPresentation.
    destruct (is_empty c); [exact H|].
    cbn [SignIn.generatedSlides]. now apply mapi_contiguous.
Qed.

Lemma C9_indices_contiguous_witness :
  map index
    (SignIn.generatedSlides
       (snd (SignIn.stream_response [Examples.stream_with_leftover])))
  = [0; 1]%nat
  /\ map index
       (PresentationView.load (Some Examples.stored_with_separator) [])
     = [0; 1]%nat.
Proof.
  destruct (C9_indices_contiguous SignIn.initial_ui [] eq_refl eq_refl)
    as [_ [_ [_ [_ [H [_ [L _]]]]]]].
  split.
  - rewrite (H [Examples.stream_with_leftover]). by_evaluation.
  - rewrite (L (Some Examples.stored_with_separator)). by_evaluation.
Defined.

(** What the two normalizers have in common: for every raw block and
    every index they produce the same title and the same index, and the
    content of the viewer's normalizer is the content of the generation
    page's normalizer with the bullet rule applied to each line. *)
Lemma normalizers_related (slideText : jstring) (i : nat) :
  title (PresentationView.parseSlide slideText i)
    = title (SignIn.parseSlide slideText i)
  /\ index (PresentationView.parseSlide slideText i)
    = index (SignIn.parseSlide slideText i)
  /\ content (PresentationView.parseSlide slideText i)
    = join NEWLINE
        (map replace_bullet
           (split NEWLINE (content (SignIn.parseSlide slideText i)))).
Proof.
  split; [reflexivity|]. split; [reflexivity|].
  unfold SignIn.parseSlide, PresentationView.parseSlide. cbn [content].
  fold (kept_lines slideText).
  pose proof (kept_lines_no_lf slideText) as H.
  destruct (tl (kept_lines slideText)) as [|l ls] eqn:E; [reflexivity|].
  now rewrite split_join_lines.
Qed.

(** C10 fails of the code: the two normalizers are not equivalent.  On the
    block of lines [Title], [- a], at any index, [parseSlide] of
    [SignIn.tsx] yields the content [- a] and [parseSlide] of
    [PresentationView.tsx] the content [• a]; title and index agree. *)
Theorem C10_normalizers_differ (i : nat) :
  SignIn.parseSlide Examples.hyphen_bullet i
    = mkSlide (js "Title") (js "- a") i
  /\ PresentationView.parseSlide Examples.hyphen_bullet i
    = mkSlide (js "Title") (BULLET :: js " a") i
  /\ SignIn.parseSlide Examples.hyphen_bullet i
     <> PresentationView.parseSlide Examples.hyphen_bullet i.
Proof.
  assert (G : SignIn.parseSlide Examples.hyphen_bullet i
              = mkSlide (js "Title") (js "- a") i).
  { unfold SignIn.parseSlide.
    replace (filter non_blank (split NEWLINE (trim Examples.hyphen_bullet)))
      with [js "Title"; js "- a"] by by_evaluation.
    f_equal; by_evaluation. }
  assert (V : PresentationView.parseSlide Examples.hyphen_bullet i
              = mkSlide (js "Title") (BULLET :: js " a") i).
  { unfold PresentationView.parseSlide.
    replace (filter non_blank (split NEWLINE (trim Examples.hyphen_bullet)))
      with [js "Title"; js "- a"] by by_evaluation.
    f_equal; by_evaluation. }
  split; [exact G|]. split; [exact V|].
  rewrite G, V. intros H. injection H as H. revert H. by_evaluation.
Qed.

(** * Further properties of the pages *)

(** ** The read loop only appends *)

Module StreamExtras.
Import TextDecoder SignIn.

Lemma appended_refl (u : ui) : appended u u [].
Proof. unfold appended. now rewrite app_nil_r, Nat.add_0_r. Qed.

Lemma appended_trans (u1 u2 u3 : ui) (a b : list Slide) :
  appended u1 u2 a -> appended u2 u3 b -> appended u1 u3 (a ++ b).
Proof.
  unfold appended. intros [H1 H2] [H3 H4].
  rewrite H3, H1, H4, H2, length_app, <- app_assoc. split; [reflexivity|lia].
Qed.

Lemma process_part_appended (p : jstring) (u : ui) :
  exists added,
    appended u (snd (process_part p u)) added /\ (length added <= 1)%nat.
Proof.
  destruct (process_part_cases p u) as [E|[[e E]|[text E]]]; rewrite E;
    cbn [snd].
  - exists []. split; [apply appended_refl|cbn; lia].
  - exists []. split; [apply appended_refl|cbn; lia].
  - eexists [_]. split; [|cbn; lia].
    unfold appended. cbn [generatedSlides currentSlideIndex length].
    split; [reflexivity|lia].
Qed.

Lemma for_parts_appended (parts : list jstring) (u : ui) :
  exists added,
    appended u (snd (for_parts parts u)) added
    /\ (length added <= length parts)%nat.
Proof.
  revert u; induction parts as [|p ps IH]; intros u.
  - exists []. split; [apply appended_refl|cbn; lia].
  - cbn [for_parts]. unfold bind.
    destruct (process_part_appended p u) as [a [Ha La]].
    destruct (process_part p u) as [[[]|e] u1]; cbn [snd] in *.
    + destruct (IH u1) as [b [Hb Lb]].
      exists (a ++ b). split; [now apply (appended_trans u u1)|].
      rewrite length_app. cbn [length]. lia.
    + exists a. split; [exact Ha|cbn [length]; lia].
Qed.

Lemma on_chunk_appended (value : list byte) (l : locals) (u : ui) :
  exists added, appended u (snd (on_chunk value l u)) added.
Proof.
  rewrite on_chunk_eq.
  destruct (decode (decoder l) value) as [d text]. cbv zeta.
  destruct (for_parts_appended
    (removelast (split RECORD_BOUNDARY (accumulatedData l ++ text))) u)
    as [a [Ha _]].
  destruct (for_parts _ u) as [[[]|e] u1]; now exists a.
Qed.

(** X1: whatever the chunks, the read loop leaves the Slides it found in
    place and in order and only appends to them, and it advances the
    current index by exactly the number of Slides it appended. *)
Theorem read_loop_appends (chunks : list (list byte)) (l : locals) (u : ui) :
  exists added, appended u (snd (read_loop chunks l u)) added.
Proof.
  revert l u; induction chunks as [|c cs IH]; intros l u.
  - exists []. apply appended_refl.
  - cbn [read_loop]. unfold bind.
    destruct (on_chunk_appended c l u) as [a Ha].
    destruct (on_chunk c l u) as [[l'|e] u1]; cbn [snd] in *.
    + destruct (IH l' u1) as [b Hb].
      exists (a ++ b). now apply (appended_trans u u1).
    + now exists a.
Qed.

Lemma stream_response_count (chunks : list (list byte)) :
  currentSlideIndex (snd (stream_response chunks))
  = length (generatedSlides (snd (stream_response chunks))).
Proof.
  unfold stream_response.
  destruct (read_loop_appends chunks initial_locals initial_ui) as [a [H1 H2]].
  destruct (read_loop chunks initial_locals initial_ui) as [[[]|e] u];
    cbn [snd] in *; rewrite H1, H2; reflexivity.
Qed.

Lemma mapi_from_flags {A} (f : nat -> bool) (k : nat) (l : list A) :
  (forall i, (k <= i < k + length l)%nat -> f i = false) ->
  Forall (fun c : A * bool => snd c = false)
    (mapi_from (fun x i => (x, f i)) k l).
Proof.
  revert k; induction l as [|x l IH]; intros k H; cbn [mapi_from];
    constructor.
  - cbn [snd]. apply H. cbn [length]. lia.
  - apply IH. intros i Hi. apply H. cbn [length]. lia.
Qed.

(** X2: while the read loop is the only code that updates the state set
    up by [handleSubmit], the current index equals the number of Slides
    after every chunk, so the test [index === currentSlideIndex] fails for
    every card and no card is enlarged.  [handleSelectPresentation]
    replaces the Slides and leaves the current index: after it, the test
    singles out the card whose index is the number of Slides streamed so
    far; selecting a stored presentation of two Slides before the first
    chunk enlarges its first card. *)
Theorem no_card_enlarged_by_read_loop (chunks : list (list byte))
    (isGenerating : bool) :
  currentSlideIndex (snd (stream_response chunks))
  = length (generatedSlides (snd (stream_response chunks)))
  /\ Forall (fun card => snd card = false)
       (Cards.cards (snd (stream_response chunks)) isGenerating)
  /\ (forall stored : jstring,
        stored <> [] ->
        Cards.cards
          (handleSelectPresentation (Some stored) (snd (stream_response chunks)))
          isGenerating
        = mapi (fun slide index =>
                  (slide,
                   (index =? length (generatedSlides
                                       (snd (stream_response chunks))))%nat
                   && isGenerating))
            (selectedSlides stored))
  /\ map snd
       (Cards.cards
          (handleSelectPresentation (Some Examples.stored_with_separator)
             (snd (stream_response [])))
          true)
     = [true; false].
Proof.
  split; [apply stream_response_count|]. split; [|split].
  - unfold Cards.cards, mapi, Cards.enlarged.
    apply (mapi_from_flags
      (fun i => (i =? currentSlideIndex (snd (stream_response chunks)))%nat
                && isGenerating)).
    intros i Hi. rewrite stream_response_count.
    replace (i =? _)%nat with false; [reflexivity|].
    symmetry. apply Nat.eqb_neq. lia.
  - intros stored Hne. unfold Cards.cards, Cards.enlarged.
    destruct stored as [|c cs]; [congruence|].
    cbn [handleSelectPresentation is_empty generatedSlides currentSlideIndex].
    now rewrite stream_response_count.
  - by_evaluation.
Qed.

Lemma no_card_enlarged_by_read_loop_witness :
  Cards.cards
    (handleSelectPresentation (Some Examples.stored_with_separator)
       (snd (stream_response [Examples.stream_with_leftover])))
    true
  = [(Examples.first_slide 0, false); (Examples.second_slide 1, false)].
Proof.
  destruct (no_card_enlarged_by_read_loop [Examples.stream_with_leftover] true)
    as [_ [_ [H _]]].
  rewrite (H Examples.stored_with_separator); by_evaluation.
Defined.

Lemma decoded_app (b1 b2 : list byte) :
  exists t2, decoded (b1 ++ b2) = decoded b1 ++ t2.
Proof.
  unfold decoded. rewrite decode_app.
  destruct (decode new_decoder b1) as [d1 t1].
  destruct (decode d1 b2) as [d2 t2]. now exists t2.
Qed.

Lemma stream_response_app (chunks1 chunks2 : list (list byte)) :
  exists records,
    stream_response (chunks1 ++ chunks2)
    = match stream_response chunks1 with
      | (None, u) => outcome (for_parts records u)
      | (Some e, u) => (Some e, u)
      end.
Proof.
  rewrite !stream_response_spec, concat_app.
  destruct (decoded_app (List.concat chunks1) (List.concat chunks2))
    as [t2 ->].
  rewrite removelast_split_app, for_parts_app.
  eexists.
  destruct (for_parts (complete_records (decoded (List.concat chunks1)))
              initial_ui) as [[[]|e] u]; reflexivity.
Qed.

(** X3: the Slides grow monotonically with the stream: the Slides after
    more chunks are the Slides after fewer chunks followed by new ones. *)
Theorem snapshots_grow (chunks1 chunks2 : list (list byte)) :
  exists added,
    generatedSlides (snd (stream_response (chunks1 ++ chunks2)))
    = generatedSlides (snd (stream_response chunks1)) ++ added.
Proof.
  destruct (stream_response_app chunks1 chunks2) as [records ->].
  destruct (stream_response chunks1) as [[e|] u]; cbn [snd].
  - exists []. now rewrite app_nil_r.
  - destruct (for_parts_appended records u) as [a [[Ha _] _]].
    exists a. now destruct (for_parts records u) as [[[]|e] u'].
Qed.

(** X4: an exception is final: once the loop has been left by an
    exception, the chunks that follow change nothing. *)
Theorem abort_is_final (chunks1 chunks2 : list (list byte)) :
  fst (stream_response chunks1) <> None ->
  stream_response (chunks1 ++ chunks2) = stream_response chunks1.
Proof.
  intros H. destruct (stream_response_app chunks1 chunks2) as [records ->].
  destruct (stream_response chunks1) as [[e|] u]; [reflexivity|].
  now cbn in H.
Qed.

Lemma abort_is_final_witness :
  stream_response
    ([Examples.stream_with_malformed] ++ [Examples.stream_with_leftover])
  = (Some SyntaxErrorExn, mkUi [Examples.first_slide 0] 1).
Proof.
  rewrite (abort_is_final [Examples.stream_with_malformed]
             [Examples.stream_with_leftover]); by_evaluation.
Defined.

End StreamExtras.

(** ** What the normalizers guarantee *)

Module NormalizerExtras.

Lemma forallb_skipn {A} (p : A -> bool) (n : nat) (l : list A) :
  forallb p l = true -> forallb p (skipn n l) = true.
Proof.
  intros H. rewrite <- (firstn_skipn n l), forallb_app in H.
  now apply andb_true_iff in H.
Qed.

Lemma forallb_firstn {A} (p : A -> bool) (n : nat) (l : list A) :
  forallb p l = true -> forallb p (firstn n l) = true.
Proof.
  intros H. rewrite <- (firstn_skipn n l), forallb_app in H.
  now apply andb_true_iff in H.
Qed.

Lemma forallb_rev {A} (p : A -> bool) (l : list A) :
  forallb p (rev l) = forallb p l.
Proof.
  induction l as [|x l IH]; [reflexivity|].
  cbn [rev forallb]. rewrite forallb_app, IH. cbn [forallb].
  rewrite andb_true_r. apply andb_comm.
Qed.

Lemma forallb_drop_ws (p : N -> bool) (s : jstring) :
  forallb p s = true -> forallb p (drop_ws s) = true.
Proof.
  intros H. destruct (drop_ws_decompose s) as [w [E _]].
  rewrite E, forallb_app in H. now apply andb_true_iff in H.
Qed.

Lemma forallb_trim (p : N -> bool) (s : jstring) :
  forallb p s = true -> forallb p (trim s) = true.
Proof.
  intros H. unfold trim, trim_start, trim_end.
  rewrite forallb_rev. apply forallb_drop_ws. rewrite forallb_rev.
  now apply forallb_drop_ws.
Qed.

Lemma forallb_replace_stars (p : N -> bool) (s : jstring) :
  forallb p s = true -> forallb p (replace_stars s) = true.
Proof.
  intros H. unfold replace_stars, strip_suffix, strip_prefix.
  assert (G : forallb p (if starts_with STARS s
                         then skipn (length STARS) s else s) = true).
  { destruct (starts_with STARS s); [now apply forallb_skipn|exact H]. }
  destruct (ends_with STARS _); [now apply forallb_firstn|exact G].
Qed.

Lemma forallb_replace_label (p : N -> bool) (s : jstring) :
  forallb p s = true -> forallb p (replace_label s) = true.
Proof.
  intros H. unfold replace_label.
  destruct (starts_with_ci SLIDE_TITLE_LABEL s); [now apply forallb_skipn|].
  destruct (starts_with_ci TITLE_LABEL s); [now apply forallb_skipn|exact H].
Qed.

Lemma digit_not_ws (c : N) : JSON.is_digit c = true -> is_ws c = false.
Proof.
  unfold JSON.is_digit. intros H. apply andb_true_iff in H as [H1 H2].
  apply N.leb_le in H1. apply N.leb_le in H2. unfold is_ws.
  repeat match goal with
         | |- context [N.eqb ?a ?b] => destruct (N.eqb_spec a b); [lia|]
         | |- context [N.leb ?a ?b] => destruct (N.leb_spec a b)
         end; cbn; try reflexivity; lia.
Qed.

(** A trimmed text does not end in white space. *)
Lemma trim_ends_clean (s : jstring) :
  trim s = [] \/ ends_clean (trim s) = true.
Proof.
  unfold trim, trim_end, ends_clean. rewrite rev_involutive.
  destruct (drop_ws (rev (trim_start s))) as [|c r] eqn:E; [now left|right].
  apply drop_ws_head in E. now rewrite E.
Qed.

Lemma trim_idempotent (s : jstring) : trim (trim s) = trim s.
Proof.
  destruct (trim_ends_clean s) as [E|E].
  - now rewrite E.
  - destruct (trim s) as [|c r] eqn:T; [reflexivity|].
    apply trim_clean; [now apply trim_head in T|exact E].
Qed.

Lemma default_title_clean (i : nat) :
  no_lf (default_title i) = true /\ trim (default_title i) = default_title i.
Proof.
  unfold default_title.
  destruct (number_to_string_digits (N.of_nat (i + 1))) as [d [ds [E Hd]]].
  rewrite E. split.
  - rewrite no_lf_app, (digits_no_lf _ Hd). reflexivity.
  - apply trim_clean; [reflexivity|].
    change (ends_clean (SLIDE_ ++ d :: ds) = true).
    apply ends_clean_app. unfold ends_clean.
    assert (R : Forall (fun c => JSON.is_digit c = true) (rev (d :: ds)))
      by now apply Forall_rev.
    destruct (rev (d :: ds)) as [|x xs] eqn:Er.
    + apply (f_equal (@length N)) in Er. rewrite length_rev in Er.
      discriminate.
    + inversion R; subst. now rewrite digit_not_ws.
Qed.

Lemma kept_lines_all_no_lf (slideText : jstring) :
  Forall (fun l => no_lf l = true) (kept_lines slideText).
Proof.
  unfold kept_lines.
  pose proof (split_newline_no_lf (trim slideText)) as H.
  induction H as [|x l Hx _ IH]; cbn [filter]; [constructor|].
  destruct (non_blank x); [now constructor|exact IH].
Qed.

Lemma title_of_clean (lines : list jstring) (i : nat) :
  Forall (fun l => no_lf l = true) lines ->
  no_lf (title_of lines i) = true
  /\ trim (title_of lines i) = title_of lines i.
Proof.
  intros H. unfold title_of.
  destruct lines as [|first rest]; [apply default_title_clean|].
  inversion H as [|? ? Hf _]; subst.
  destruct (trim (replace_label (replace_stars first))) as [|c r] eqn:E;
    cbn [is_empty]; [apply default_title_clean|].
  rewrite <- E. split; [|apply trim_idempotent].
  now apply forallb_trim, forallb_replace_label, forallb_replace_stars.
Qed.

(** X5: the title of a normalized Slide is on one line and trimmed: it
    holds no line feed and neither starts nor ends with white space, in
    both normalizers. *)
Theorem title_single_line_trimmed (slideText : jstring) (i : nat) :
  no_lf (title (PresentationView.parseSlide slideText i)) = true
  /\ trim (title (PresentationView.parseSlide slideText i))
     = title (PresentationView.parseSlide slideText i)
  /\ no_lf (title (SignIn.parseSlide slideText i)) = true
  /\ trim (title (SignIn.parseSlide slideText i))
     = title (SignIn.parseSlide slideText i).
Proof.
  unfold PresentationView.parseSlide, SignIn.parseSlide. cbn [title].
  fold (kept_lines slideText).
  destruct (title_of_clean (kept_lines slideText) i
              (kept_lines_all_no_lf slideText)) as [H1 H2].
  auto.
Qed.

Lemma drop_ws_idempotent (s : jstring) : drop_ws (drop_ws s) = drop_ws s.
Proof.
  destruct (drop_ws s) as [|c r] eqn:E; [reflexivity|].
  apply drop_ws_head in E. cbn [drop_ws]. now rewrite E.
Qed.

Lemma replace_bullet_idempotent (line : jstring) :
  replace_bullet (replace_bullet line) = replace_bullet line.
Proof.
  destruct line as [|c rest]; [reflexivity|]. cbn [replace_bullet].
  destruct (is_bullet_glyph c) eqn:G.
  - cbn [replace_bullet]. change (is_bullet_glyph BULLET) with true.
    cbv iota. cbn [drop_ws]. change (is_ws 32) with true. cbv iota.
    now rewrite drop_ws_idempotent.
  - cbn [replace_bullet]. now rewrite G.
Qed.

Lemma replace_bullet_non_blank (line : jstring) :
  non_blank line = true -> non_blank (replace_bullet line) = true.
Proof.
  destruct line as [|c rest]; [discriminate|]. cbn [replace_bullet].
  destruct (is_bullet_glyph c); [|auto].
  intros _. now apply non_blank_head.
Qed.

Lemma replace_bullet_no_lf (line : jstring) :
  no_lf line = true -> no_lf (replace_bullet line) = true.
Proof.
  destruct line as [|c rest]; [reflexivity|]. cbn [replace_bullet].
  destruct (is_bullet_glyph c); [|auto].
  cbn [no_lf forallb]. intros H. apply andb_true_iff in H as [_ H].
  now apply forallb_drop_ws.
Qed.

Lemma kept_lines_non_blank (slideText : jstring) :
  Forall (fun l => non_blank l = true) (kept_lines slideText).
Proof.
  unfold kept_lines. apply Forall_forall. intros l Hl.
  now apply filter_In in Hl.
Qed.

Lemma Forall_tl {A} (P : A -> Prop) (l : list A) :
  Forall P l -> Forall P (tl l).
Proof. intros H. destruct H; [constructor|assumption]. Qed.

Lemma forallb_Forall {A} (p : A -> bool) (l : list A) :
  Forall (fun x => p x = true) l <-> forallb p l = true.
Proof.
  rewrite Forall_forall, forallb_forall. reflexivity.
Qed.

Lemma map_replace_bullet_well_formed (lines : list jstring) :
  Forall (fun l => non_blank l = true) lines ->
  Forall (fun l => well_formed_line l = true) (map replace_bullet lines).
Proof.
  induction 1 as [|x xs Hx _ IH]; cbn [map]; constructor; [|exact IH].
  unfold well_formed_line. rewrite (replace_bullet_non_blank x Hx).
  now rewrite replace_bullet_idempotent, jstring_eqb_refl.
Qed.

Lemma map_replace_bullet_no_lf (lines : list jstring) :
  Forall (fun l => no_lf l = true) lines ->
  Forall (fun l => no_lf l = true) (map replace_bullet lines).
Proof.
  induction 1 as [|x xs Hx _ IH]; cbn [map]; constructor;
    [now apply replace_bullet_no_lf|exact IH].
Qed.

(** X6: in the content of the viewer's normalizer no line is blank and
    every line is left as it is by the bullet rule (so no line starts with
    [*] or [-]); in the content of the streaming normalizer no line is
    blank.  The bullet rule is idempotent. *)
Theorem content_lines_normal (slideText : jstring) (i : nat) :
  (content (PresentationView.parseSlide slideText i) = []
   \/ forallb well_formed_line
        (split NEWLINE (content (PresentationView.parseSlide slideText i)))
      = true)
  /\ (content (SignIn.parseSlide slideText i) = []
      \/ forallb non_blank
           (split NEWLINE (content (SignIn.parseSlide slideText i)))
         = true)
  /\ (forall line,
        replace_bullet (replace_bullet line) = replace_bullet line).
Proof.
  unfold PresentationView.parseSlide, SignIn.parseSlide. cbn [content].
  fold (kept_lines slideText).
  pose proof (Forall_tl _ _ (kept_lines_all_no_lf slideText)) as Hlf.
  pose proof (Forall_tl _ _ (kept_lines_non_blank slideText)) as Hnb.
  split; [|split; [|apply replace_bullet_idempotent]].
  - apply map_replace_bullet_well_formed in Hnb.
    apply map_replace_bullet_no_lf in Hlf.
    destruct (map replace_bullet (tl (kept_lines slideText))) as [|l ls] eqn:E;
      [now left|right].
    rewrite split_join_lines; [|discriminate|exact Hlf].
    now apply forallb_Forall.
  - destruct (tl (kept_lines slideText)) as [|l ls] eqn:E; [now left|right].
    rewrite split_join_lines; [|discriminate|exact Hlf].
    now apply forallb_Forall.
Qed.

Lemma drop_ws_blank_prefix (w s : jstring) :
  forallb is_ws w = true -> drop_ws (w ++ s) = drop_ws s.
Proof.
  induction w as [|c w IH]; [reflexivity|].
  cbn [forallb app drop_ws]. intros H. apply andb_true_iff in H as [Hc Hw].
  rewrite Hc. now apply IH.
Qed.

Lemma trim_end_blank_suffix (s w : jstring) :
  forallb is_ws w = true -> trim_end (s ++ w) = trim_end s.
Proof.
  intros H. unfold trim_end. rewrite rev_app_distr.
  rewrite drop_ws_blank_prefix; [reflexivity|now rewrite forallb_rev].
Qed.

Lemma drop_ws_nil_blank (s : jstring) :
  drop_ws s = [] -> forallb is_ws s = true.
Proof.
  intros H. destruct (drop_ws_decompose s) as [w [E Hw]].
  rewrite H, app_nil_r in E. now subst.
Qed.

(** White space around a text does not survive [trim]. *)
Lemma trim_surrounded (w1 s w2 : jstring) :
  forallb is_ws w1 = true -> forallb is_ws w2 = true ->
  trim (w1 ++ s ++ w2) = trim s.
Proof.
  intros H1 H2. unfold trim, trim_start.
  rewrite (drop_ws_blank_prefix w1 _ H1).
  destruct (drop_ws s) as [|c r] eqn:E.
  - rewrite drop_ws_blank; [reflexivity|].
    rewrite forallb_app, H2, (drop_ws_nil_blank s E). reflexivity.
  - rewrite drop_ws_app_kept by (rewrite E; discriminate).
    rewrite E. now apply trim_end_blank_suffix.
Qed.

(** X7: white space (blanks, tabs, empty lines) before and after a block
    does not change the Slide either normalizer makes of it. *)
Theorem surrounding_white_space_ignored (before after slideText : jstring)
    (i : nat) :
  forallb is_ws before = true ->
  forallb is_ws after = true ->
  PresentationView.parseSlide (before ++ slideText ++ after) i
    = PresentationView.parseSlide slideText i
  /\ SignIn.parseSlide (before ++ slideText ++ after) i
     = SignIn.parseSlide slideText i.
Proof.
  intros H1 H2. unfold PresentationView.parseSlide, SignIn.parseSlide.
  rewrite (trim_surrounded before slideText after H1 H2). auto.
Qed.

Lemma surrounding_white_space_ignored_witness :
  PresentationView.parseSlide
    ([LF; 32] ++ Examples.derivatives ++ [32; LF; LF]) 0
  = mkSlide (js "Derivatives") Examples.derivatives_canonical 0.
Proof.
  rewrite (proj1 (surrounding_white_space_ignored [LF; 32] [32; LF; LF]
                    Examples.derivatives 0 eq_refl eq_refl)).
  by_evaluation.
Defined.

Lemma map_fixed {A} (f : A -> A) (l : list A) :
  map f l = l <-> Forall (fun x => f x = x) l.
Proof.
  induction l as [|x l IH]; cbn [map]; split; intros H.
  - constructor.
  - reflexivity.
  - injection H as H1 H2. constructor; [exact H1|]. now apply IH.
  - inversion H as [|? ? H1 H2]; subst. rewrite H1. f_equal. now apply IH.
Qed.

(** X8: the two normalizers make the same Slide of a block exactly when
    the bullet rule leaves every content line it keeps as it is. *)
Theorem normalizers_agree_iff (slideText : jstring) (i : nat) :
  PresentationView.parseSlide slideText i = SignIn.parseSlide slideText i
  <-> Forall (fun line => replace_bullet line = line)
        (tl (kept_lines slideText)).
Proof.
  unfold PresentationView.parseSlide, SignIn.parseSlide.
  fold (kept_lines slideText).
  pose proof (Forall_tl _ _ (kept_lines_all_no_lf slideText)) as Hlf.
  split.
  - intros H. injection H as H.
    destruct (tl (kept_lines slideText)) as [|l ls] eqn:E; [constructor|].
    rewrite <- E in *. apply map_fixed.
    assert (Hne : tl (kept_lines slideText) <> []) by (rewrite E; discriminate).
    rewrite <- (split_join_lines (tl (kept_lines slideText)) Hne Hlf) at 2.
    rewrite <- H. symmetry. apply split_join_lines.
    + rewrite E. discriminate.
    + now apply map_replace_bullet_no_lf.
  - intros H. apply map_fixed in H. now rewrite H.
Qed.

Lemma render_replace_bullet (line : jstring) :
  Viewer.render_line (replace_bullet line) = row_of_source_line line.
Proof.
  destruct line as [|c rest]; [reflexivity|].
  cbn [replace_bullet row_of_source_line].
  destruct (is_bullet_glyph c) eqn:G.
  - unfold Viewer.render_line. cbn [starts_with].
    rewrite N.eqb_refl. cbn [andb skipn]. f_equal.
    unfold trim, trim_start. cbn [drop_ws]. change (is_ws 32) with true.
    cbv iota. now rewrite drop_ws_idempotent.
  - unfold Viewer.render_line. cbn [starts_with].
    unfold is_bullet_glyph in G.
    apply orb_false_iff in G as [_ G]. rewrite N.eqb_sym, G. reflexivity.
Qed.

(** X9: the viewer shows one row for every content line the normalizer
    kept, in order: a source line that starts with [*], [-] or [•] is
    shown as a bullet with the rest of the line trimmed, any other line as
    a paragraph with the line as it is. *)
Theorem rendered_rows (slideText : jstring) (i : nat) :
  Viewer.render_content (content (PresentationView.parseSlide slideText i))
  = map row_of_source_line (tl (kept_lines slideText)).
Proof.
  unfold Viewer.render_content, PresentationView.parseSlide. cbn [content].
  fold (kept_lines slideText).
  pose proof (map_replace_bullet_no_lf _
                (Forall_tl _ _ (kept_lines_all_no_lf slideText))) as Hlf.
  pose proof (map_replace_bullet_well_formed _
                (Forall_tl _ _ (kept_lines_non_blank slideText))) as Hwf.
  transitivity
    (map Viewer.render_line (map replace_bullet (tl (kept_lines slideText))));
    [|rewrite map_map; apply map_ext, render_replace_bullet].
  f_equal.
  destruct (map replace_bullet (tl (kept_lines slideText))) as [|l ls] eqn:E;
    [reflexivity|].
  rewrite split_join_lines; [|discriminate|exact Hlf].
  apply filter_all.
  eapply Forall_impl; [|exact Hwf].
  intros x Hx. unfold well_formed_line in Hx.
  now apply andb_true_iff in Hx.
Qed.

End NormalizerExtras.

(** ** Moving through the deck *)

Module ViewerExtras.
Import Viewer.

Local Open Scope Z_scope.

Lemma step_in_deck (slides : list Slide) (currentSlide : Z) (a : action) :
  in_deck slides currentSlide -> in_deck slides (step slides currentSlide a).
Proof.
  unfold in_deck, count. intros H.
  destruct a as [[| |]| | |idx]; cbn [step handleKeyPress];
    unfold clickPrevious, clickNext, clickDot, count.
  - destruct (Z.ltb_spec currentSlide (Z.of_nat (length slides) - 1)); lia.
  - destruct (Z.ltb_spec 0 currentSlide); lia.
  - exact H.
  - destruct (Z.eqb_spec currentSlide 0); lia.
  - destruct (Z.eqb_spec currentSlide (Z.of_nat (length slides) - 1)); lia.
  - destruct (Nat.ltb_spec idx (length slides)); lia.
Qed.

Lemma navigate_in_deck (slides : list Slide) (actions : list action)
    (currentSlide : Z) :
  in_deck slides currentSlide ->
  in_deck slides (navigate slides currentSlide actions).
Proof.
  unfold navigate. revert currentSlide.
  induction actions as [|a actions IH]; intros c H; [exact H|].
  cbn [fold_left]. now apply IH, step_in_deck.
Qed.

(** X10: navigation never leaves the deck.  From a current slide that is
    one of the slides, any sequence of arrow keys, other keys, Previous,
    Next and dot clicks leads to a current slide that is again one of the
    slides, so the slide and the theme the page reads for it are always
    defined. *)
Theorem navigation_stays_in_deck (slides : list Slide) (currentSlide : Z)
    (actions : list action) :
  0 <= currentSlide < count slides ->
  0 <= navigate slides currentSlide actions < count slides
  /\ currentSlideData slides (navigate slides currentSlide actions) <> None
  /\ currentTheme (navigate slides currentSlide actions) <> None.
Proof.
  intros H. pose proof (navigate_in_deck slides actions currentSlide H) as G.
  unfold in_deck, count in *. split; [exact G|]. split.
  - unfold currentSlideData, at_index.
    destruct (Z.ltb_spec (navigate slides currentSlide actions) 0); [lia|].
    apply nth_error_Some. lia.
  - unfold currentTheme, at_index. cbn [length slideThemes].
    pose proof (Z.rem_bound_pos (navigate slides currentSlide actions) 6
                  ltac:(lia) ltac:(lia)) as B.
    destruct (Z.ltb_spec (Z.rem (navigate slides currentSlide actions)
                            (Z.of_nat 6)) 0) as [L|L];
      [change (Z.of_nat 6) with 6 in L; lia|].
    apply nth_error_Some. cbn [length slideThemes].
    change (Z.of_nat 6) with 6. lia.
Qed.

Lemma navigation_stays_in_deck_witness :
  navigate Examples.deck 1
    [Next; Next; Press ArrowRight; Previous; Dot 7; Press ArrowLeft;
     Press ArrowLeft; Previous; Press OtherKey] = 0
  /\ currentSlideData Examples.deck
       (navigate Examples.deck 1
          [Next; Next; Press ArrowRight; Previous; Dot 7; Press ArrowLeft;
           Press ArrowLeft; Previous; Press OtherKey]) <> None.
Proof.
  split; [by_evaluation|].
  exact (proj1 (proj2 (navigation_stays_in_deck Examples.deck 1
    [Next; Next; Press ArrowRight; Previous; Dot 7; Press ArrowLeft;
     Press ArrowLeft; Previous; Press OtherKey] ltac:(cbn; lia)))).
Defined.

(** X11: inside the deck the arrow keys and the buttons do the same: the
    right arrow is the Next button and the left arrow is the Previous
    button; both pairs stop at the ends of the deck. *)
Theorem keys_match_buttons (slides : list Slide) (currentSlide : Z) :
  0 <= currentSlide < count slides ->
  handleKeyPress slides ArrowRight currentSlide = clickNext slides currentSlide
  /\ handleKeyPress slides ArrowLeft currentSlide = clickPrevious currentSlide
  /\ clickNext slides (count slides - 1) = count slides - 1
  /\ clickPrevious 0 = 0.
Proof.
  unfold count. intros H. cbn [handleKeyPress].
  unfold clickNext, clickPrevious, count. repeat split.
  - destruct (Z.ltb_spec currentSlide (Z.of_nat (length slides) - 1));
      destruct (Z.eqb_spec currentSlide (Z.of_nat (length slides) - 1)); lia.
  - destruct (Z.ltb_spec 0 currentSlide);
      destruct (Z.eqb_spec currentSlide 0); lia.
  - now rewrite Z.eqb_refl.
Qed.

Lemma keys_match_buttons_witness :
  handleKeyPress Examples.deck ArrowRight 2 = 2
  /\ clickNext Examples.deck 2 = 2.
Proof.
  destruct (keys_match_buttons Examples.deck 2 ltac:(cbn; lia)) as [H _].
  split; [by_evaluation|]. rewrite <- H. by_evaluation.
Defined.

End ViewerExtras.

(** ** Stored content without slides *)

Module HydrationExtras.

Lemma cut_holds_separator (sep s a r : jstring) (c : N) :
  cut sep s = Some (a, r) -> In c sep -> In c s.
Proof.
  intros C Hc. apply cut_inv in C. subst s.
  apply in_or_app. right. apply in_or_app. now left.
Qed.

Lemma blank_has_no_separator (s : jstring) :
  forallb is_ws s = true -> cut SEPARATOR_SEQUENCE s = None.
Proof.
  intros H. destruct (cut SEPARATOR_SEQUENCE s) as [[a r]|] eqn:C;
    [|reflexivity].
  apply (cut_holds_separator _ _ _ _ 45) in C;
    [|unfold SEPARATOR_SEQUENCE; cbn; tauto].
  rewrite forallb_forall in H. apply H in C. discriminate.
Qed.

(** X12: a stored content that is empty or white space only re-hydrates
    to no Slide, so the viewer shows its error screen and not a deck. *)
Theorem blank_content_has_no_slides (stored : jstring) :
  forallb is_ws stored = true ->
  PresentationView.parsedSlides stored = []
  /\ SignIn.selectedSlides stored = []
  /\ Viewer.shows_not_found false true
       (PresentationView.load (Some stored) []) = true.
Proof.
  intros H.
  assert (P : filter is_slide_block (split SEPARATOR_SEQUENCE stored) = []).
  { rewrite split_unfold by apply separator_not_nil.
    rewrite (blank_has_no_separator stored H). cbn [filter].
    unfold is_slide_block. now rewrite (trim_blank stored H). }
  unfold PresentationView.load, PresentationView.parsedSlides,
    SignIn.selectedSlides.
  rewrite P. repeat split.
  destruct (is_empty stored); reflexivity.
Qed.

Lemma blank_content_has_no_slides_witness :
  PresentationView.parsedSlides Examples.white_space_only = [].
Proof.
  exact (proj1 (blank_content_has_no_slides Examples.white_space_only
                  eq_refl)).
Defined.

End HydrationExtras.

(** ** The upload page *)

Module AddBookExtras.
Import AddBook.

Local Open Scope Z_scope.

Lemma ticks_from_multiple (n : nat) (k : Z) :
  0 <= k <= 9 ->
  ticks n (10 * k) = Z.min (10 * (k + Z.of_nat n)) 90.
Proof.
  revert k; induction n as [|n IH]; intros k Hk.
  - cbn [ticks]. lia.
  - cbn [ticks]. unfold tick.
    destruct (Z.leb_spec 90 (10 * k)).
    + assert (k = 9) by lia. subst k.
      pose proof (IH 9 ltac:(lia)) as E. change (10 * 9) with 90 in E.
      rewrite E. lia.
    + replace (10 * k + 10) with (10 * (k + 1)) by lia.
      rewrite IH by lia. lia.
Qed.

(** X13: the simulated progress is capped: after [n] firings of the timer
    the bar stands at ten times [n] per cent, but never above 90; only
    the end of the upload moves it further. *)
Theorem progress_capped (n : nat) :
  ticks n 0 = Z.min (10 * Z.of_nat n) 90.
Proof. exact (ticks_from_multiple n 0 ltac:(lia)). Qed.

(** X14: for every value of the progress exactly one status text is
    shown: the four conditions leave no gap and do not overlap. *)
Theorem one_status_text (uploadProgress : Z) :
  messages uploadProgress =
  [if uploadProgress <? 30 then Reading
   else if uploadProgress <? 60 then Extracting
   else if uploadProgress <? 90 then Embedding
   else Finalizing].
Proof.
  unfold messages.
  destruct (Z.ltb_spec uploadProgress 30);
    destruct (Z.leb_spec 30 uploadProgress);
    destruct (Z.ltb_spec uploadProgress 60);
    destruct (Z.leb_spec 60 uploadProgress);
    destruct (Z.ltb_spec uploadProgress 90);
    destruct (Z.leb_spec 90 uploadProgress);
    cbn; try reflexivity; lia.
Qed.

Local Close Scope Z_scope.

Lemma remove_extension_keeps (x ext : jstring) :
  remove_extension (x ++ 46 :: ext) = x ++ remove_extension (46 :: ext).
Proof.
  induction x as [|c x IH]; [reflexivity|].
  cbn [app remove_extension].
  replace (forallb is_extension_unit (x ++ 46 :: ext)) with false.
  - rewrite andb_false_r. now rewrite IH.
  - rewrite forallb_app. cbn. now rewrite andb_false_r.
Qed.

(** X15: the title taken from a file name is the name without its
    extension: whatever the base, a name made of the base, a full stop and
    a non-empty extension free of [/] and [.] gives back the base.  A
    name that starts with the full stop of its only extension gives the
    empty title. *)
Theorem remove_extension_base (base ext : jstring) :
  ext <> [] ->
  forallb is_extension_unit ext = true ->
  remove_extension (base ++ 46 :: ext) = base.
Proof.
  intros Hne Hext. rewrite remove_extension_keeps.
  cbn [remove_extension]. rewrite Hext.
  destruct ext; [congruence|]. cbn. apply app_nil_r.
Qed.

Lemma remove_extension_base_witness :
  remove_extension (js "notes.v2.pdf") = js "notes.v2"
  /\ remove_extension (js ".gitignore") = [].
Proof.
  split.
  - exact (remove_extension_base (js "notes.v2") (js "pdf")
             ltac:(discriminate) eq_refl).
  - exact (remove_extension_base [] (js "gitignore")
             ltac:(discriminate) eq_refl).
Defined.

(** X16: a file name without a removable extension is kept whole: a name
    without a full stop is unchanged, and so is a name whose last full
    stop is followed by nothing or by a text that holds a [/]. *)
Theorem remove_extension_unchanged (tail : jstring) :
  forallb (fun c => negb (c =? 46)) tail = true ->
  remove_extension tail = tail
  /\ ((tail = [] \/ In 47 tail) ->
      forall name, remove_extension (name ++ 46 :: tail) = name ++ 46 :: tail).
Proof.
  intros Hdot.
  assert (T : remove_extension tail = tail).
  { induction tail as [|c t IH]; [reflexivity|].
    cbn [forallb] in Hdot. apply andb_true_iff in Hdot as [Hc Ht].
    apply negb_true_iff in Hc. cbn [remove_extension].
    rewrite Hc. cbn [andb]. now rewrite IH. }
  split; [exact T|]. intros Htail name.
  rewrite remove_extension_keeps. cbn [remove_extension].
  replace ((46 =? 46) && negb (is_empty tail)
           && forallb is_extension_unit tail) with false.
  - now rewrite T.
  - destruct Htail as [->|Hin]; [reflexivity|].
    replace (forallb is_extension_unit tail) with false;
      [now rewrite andb_false_r|].
    symmetry. apply not_true_iff_false. intros F.
    rewrite forallb_forall in F. apply F in Hin. discriminate.
Qed.

Lemma remove_extension_unchanged_witness :
  remove_extension (js "README") = js "README"
  /\ remove_extension (js "archive.") = js "archive."
  /\ remove_extension (js "v1.2/notes") = js "v1.2/notes".
Proof.
  split; [|split].
  - exact (proj1 (remove_extension_unchanged (js "README") eq_refl)).
  - exact (proj2 (remove_extension_unchanged [] eq_refl)
             (or_introl eq_refl) (js "archive")).
  - assert (H : js "2/notes" = [] \/ In 47 (js "2/notes"))
      by (right; vm_compute; right; left; reflexivity).
    exact (proj2 (remove_extension_unchanged (js "2/notes") eq_refl)
             H (js "v1")).
Defined.

End AddBookExtras.

(** ** Export and re-hydration in the generation page *)

Module RawExportFacts.

Section RawBlock.

Variables (slide : Slide) (i : nat).
Hypothesis Hraw : raw_well_formed slide = true.

Lemma raw_title : well_formed_title (title slide) = true.
Proof. unfold raw_well_formed in Hraw. now apply andb_true_iff in Hraw. Qed.

Lemma raw_title_parts :
  ends_clean (title slide) = true /\ no_lf (title slide) = true
  /\ ends_with STARS (title slide) = false.
Proof. apply well_formed_title_parts, raw_title. Qed.

Lemma raw_cases :
  content slide = []
  \/ (content slide <> []
      /\ ends_clean (content slide) = true
      /\ forallb non_blank (split NEWLINE (content slide)) = true
      /\ starts_with [45] (content slide) = false).
Proof.
  pose proof Hraw as H. unfold raw_well_formed in H.
  apply andb_true_iff in H as [_ H]. unfold raw_content in H.
  destruct (content slide) as [|c cs] eqn:E; [now left|right].
  cbn [is_empty orb] in H.
  apply andb_true_iff in H as [H12 H3].
  apply andb_true_iff in H12 as [H1 H2].
  apply negb_true_iff in H3. repeat split; easy.
Qed.

Lemma raw_trim :
  trim (export_block slide i) =
  match content slide with
  | [] => title_line slide i
  | _ :: _ => export_block slide i
  end.
Proof.
  rewrite export_block_eq.
  pose proof (title_line_ends_clean slide i (proj1 raw_title_parts)) as Hc.
  destruct (title_line_head slide i) as [rest E].
  destruct raw_cases as [C|[C [Hec _]]].
  - rewrite C, E. unfold trim, trim_start. cbn [app drop_ws].
    change (is_ws 83) with false. cbv iota.
    change (83 :: rest ++ [LF; LF]) with ((83 :: rest) ++ [LF; LF]).
    rewrite <- E. unfold trim_end. rewrite rev_app_distr.
    cbn [rev app drop_ws]. change (is_ws LF) with true. cbv iota.
    apply (trim_end_clean _ Hc).
  - destruct (content slide) as [|c cs] eqn:Ec; [congruence|].
    rewrite E. cbn [app]. apply trim_clean; [reflexivity|].
    change (83 :: rest ++ LF :: LF :: c :: cs)
      with ((83 :: rest) ++ [LF; LF] ++ c :: cs).
    now repeat apply ends_clean_app.
Qed.

Lemma raw_is_slide_block : is_slide_block (export_block slide i) = true.
Proof.
  unfold is_slide_block. rewrite raw_trim.
  assert (H : exists r, match content slide with
                        | [] => title_line slide i
                        | _ :: _ => export_block slide i
                        end = 83 :: r).
  { destruct (content slide); eexists; reflexivity. }
  destruct H as [r ->]. cbn [is_empty negb andb].
  unfold JSON.jstring_eqb, SLIDE_SEPARATOR. cbn [starts_with].
  change (83 =? 45) with false. now rewrite andb_false_r.
Qed.

Lemma raw_kept_lines :
  kept_lines (export_block slide i) =
  title_line slide i ::
  match content slide with
  | [] => []
  | _ :: _ => split NEWLINE (content slide)
  end.
Proof.
  unfold kept_lines. rewrite raw_trim.
  pose proof (title_line_no_lf slide i (proj1 (proj2 raw_title_parts))) as Hlf.
  pose proof (title_line_non_blank slide i) as Hnb.
  destruct raw_cases as [C|[C [_ [Hls _]]]].
  - rewrite C. rewrite split_unfold by apply newline_not_nil.
    rewrite (framed_cut_none _ _ newline_not_nil (no_lf_framed _ Hlf)).
    cbn [filter]. now rewrite Hnb.
  - destruct (content slide) as [|c cs] eqn:Ec; [congruence|].
    rewrite <- Ec in *. rewrite export_block_eq.
    pose proof (split_not_nil NEWLINE (content slide)) as Hne.
    assert (J : title_line slide i ++ LF :: LF :: content slide
                = join NEWLINE
                    (title_line slide i :: [] :: split NEWLINE (content slide))).
    { rewrite join_cons by discriminate.
      rewrite join_cons by exact Hne.
      now rewrite join_split by apply newline_not_nil. }
    rewrite J, split_join_lines; [|discriminate|].
    + cbn [filter]. rewrite Hnb. change (non_blank []) with false.
      cbv iota. f_equal. apply filter_all.
      now apply NormalizerExtras.forallb_Forall.
    + constructor; [exact Hlf|]. constructor; [reflexivity|].
      apply split_newline_no_lf.
Qed.

(** The streaming normalizer on an exported block. *)
Lemma raw_parseSlide (k : nat) :
  SignIn.parseSlide (export_block slide i) k
  = mkSlide (title_line slide i) (content slide) k.
Proof.
  unfold SignIn.parseSlide. fold (kept_lines (export_block slide i)).
  rewrite raw_kept_lines, (title_of_title_line slide i (proj1 raw_title_parts)
                          (proj2 (proj2 raw_title_parts))).
  cbn [tl]. f_equal.
  destruct raw_cases as [C|[C _]]; [now rewrite C|].
  destruct (content slide) as [|c cs] eqn:Ec; [congruence|].
  rewrite <- Ec. apply join_split, newline_not_nil.
Qed.

Lemma non_blank_not_nil (l : jstring) : non_blank l = true -> l <> [].
Proof. intros H E. subst. discriminate. Qed.

Lemma raw_framed : framed SEPARATOR_SEQUENCE (export_block slide i).
Proof.
  unfold framed. rewrite export_block_eq, <- app_assoc.
  pose proof (title_line_no_lf slide i (proj1 (proj2 raw_title_parts))) as Hlf.
  destruct raw_cases as [C|[C [_ [Hls Hh]]]].
  - rewrite C. now apply cut_separator_skip.
  - pose proof (split_not_nil NEWLINE (content slide)) as Hne.
    pose proof (split_newline_no_lf (content slide)) as Hnl.
    pose proof (join_split NEWLINE (content slide) newline_not_nil) as J.
    assert (F : framed SEPARATOR_SEQUENCE (content slide)).
    { rewrite <- J. apply lines_framed; [exact Hne|].
      apply Forall_forall. intros l' Hin. split.
      - now apply (proj1 (Forall_forall _ _) Hnl).
      - apply non_blank_not_nil.
        now apply (proj1 (forallb_forall _ _) Hls). }
    destruct (content slide) as [|x cs] eqn:Ec; [congruence|].
    cbn [starts_with] in Hh. rewrite andb_true_r, N.eqb_sym in Hh.
    assert (Hx : (x =? LF) = false).
    { destruct (split NEWLINE (x :: cs)) as [|l ls] eqn:E; [congruence|].
      inversion Hnl as [|? ? Hl _]; subst.
      cbn [forallb] in Hls. apply andb_true_iff in Hls as [Hnb _].
      destruct l as [|y l]; [discriminate|].
      assert (y = x).
      { destruct ls; cbn [join app] in J; now injection J. }
      subst y. cbn [no_lf forallb] in Hl.
      apply andb_true_iff in Hl as [Hl _]. now apply negb_true_iff in Hl. }
    unfold framed in F.
    apply cut_separator_skip; [exact Hlf|].
    cbn [app]. apply cut_cons_skip; [now apply separator_needs_hyphen|].
    apply cut_cons_skip; [now apply separator_needs_lf_lf|].
    exact F.
Qed.

End RawBlock.

(** X17: in the generation page, re-hydrating the text the page exports
    gives one Slide per exported Slide, in order, for Slides whose title
    is well formed and whose content is empty or made of non-blank lines,
    ends cleanly and does not start with a hyphen: the content comes back
    as it was (bullets are not rewritten), the index is the position, and
    the title is the exported first line. *)
Theorem selectedSlides_export_text (slides : list Slide) :
  Forall (fun s => raw_well_formed s = true) slides ->
  SignIn.selectedSlides (SignIn.export_text slides) = mapi reparsed slides.
Proof.
  intros Hwf. unfold SignIn.selectedSlides, SignIn.export_text.
  destruct slides as [|s0 rest] eqn:E; [reflexivity|]. rewrite <- E in *.
  assert (Hne : slides <> []) by (subst; discriminate). clear E.
  rewrite split_join.
  - rewrite filter_all.
    + unfold mapi. apply (mapi_from_compose _ _ _ _ _ _ (fun s n Hs =>
        raw_parseSlide s n Hs n) Hwf).
    + unfold mapi. apply (mapi_from_Forall _ _ _ _ _
        (fun s n Hs => raw_is_slide_block s n Hs) Hwf).
  - apply separator_not_nil.
  - now apply mapi_from_not_nil.
  - unfold mapi. apply (mapi_from_Forall _ _ _ _ _
      (fun s n Hs => raw_framed s n Hs) Hwf).
Qed.

Lemma selectedSlides_export_text_witness :
  SignIn.selectedSlides
    (SignIn.export_text
       [mkSlide (js "Loans") (js "* rates" ++ [LF] ++ js "- terms") 0;
        mkSlide (js "End") [] 1])
  = [mkSlide (js "Slide 1: Loans") (js "* rates" ++ [LF] ++ js "- terms") 0;
     mkSlide (js "Slide 2: End") [] 1].
Proof.
  rewrite (selectedSlides_export_text
    [mkSlide (js "Loans") (js "* rates" ++ [LF] ++ js "- terms") 0;
     mkSlide (js "End") [] 1] ltac:(each_by_evaluation)).
  by_evaluation.
Defined.

End RawExportFacts.

(** ** The conditions of the export round trip *)

Module ExportExtras.
Import NormalizerExtras.

Lemma ends_clean_app_inv (x y : jstring) :
  y <> [] -> ends_clean (x ++ y) = ends_clean y.
Proof.
  intros Hy. unfold ends_clean. rewrite rev_app_distr.
  destruct (rev y) as [|c r] eqn:E; [|reflexivity].
  apply (f_equal (@rev N)) in E. rewrite rev_involutive in E. now subst.
Qed.

Lemma blank_not_clean (x : jstring) :
  forallb is_ws x = true -> ends_clean x = false.
Proof.
  intros H. unfold ends_clean. rewrite <- forallb_rev in H.
  destruct (rev x) as [|c r]; [reflexivity|].
  cbn [forallb] in H. apply andb_true_iff in H as [Hc _]. now rewrite Hc.
Qed.

Lemma ends_clean_non_blank (x : jstring) :
  ends_clean x = true -> non_blank x = true.
Proof.
  intros H. unfold non_blank, trim, trim_start.
  destruct (drop_ws x) as [|c r] eqn:E.
  - apply drop_ws_nil_blank, blank_not_clean in E. congruence.
  - pose proof (drop_ws_head _ _ _ E) as Hc.
    pose proof (non_blank_head c r Hc) as Hnb.
    unfold non_blank, trim, trim_start in Hnb. cbn [drop_ws] in Hnb.
    now rewrite Hc in Hnb.
Qed.

(** The last line of a text that ends cleanly ends cleanly. *)
Lemma last_line_clean (t : jstring) :
  ends_clean t = true ->
  exists init l, split NEWLINE t = init ++ [l] /\ ends_clean l = true.
Proof.
  intros H.
  pose proof (@app_removelast_last jstring _ [] (split_not_nil NEWLINE t)) as S.
  pose proof (join_split NEWLINE t newline_not_nil) as J.
  rewrite S in J.
  destruct (join_snoc NEWLINE (removelast (split NEWLINE t)))
    as [p [Hp Hj]].
  rewrite Hj in J.
  exists (removelast (split NEWLINE t)), (last (split NEWLINE t) []).
  split; [exact S|].
  destruct (last (split NEWLINE t) []) as [|c l] eqn:E.
  - rewrite app_nil_r in J. subst t.
    destruct Hp as [->|[q ->]]; [discriminate|].
    rewrite ends_clean_app_inv in H by discriminate. discriminate.
  - rewrite <- J, ends_clean_app_inv in H by discriminate. exact H.
Qed.

Lemma tl_snoc {A} (l : list A) (x : A) :
  tl (l ++ [x]) = [] \/ exists l', tl (l ++ [x]) = l' ++ [x].
Proof.
  destruct l as [|a l]; [now left|right]. now exists l.
Qed.

(** The lines [parseSlide] keeps after the first end with a line that
    ends cleanly. *)
Lemma kept_lines_last_clean (slideText : jstring) :
  tl (kept_lines slideText) = []
  \/ exists ks x,
       tl (kept_lines slideText) = ks ++ [x] /\ ends_clean x = true.
Proof.
  unfold kept_lines.
  destruct (trim_ends_clean slideText) as [E|E]; [rewrite E; now left|].
  destruct (last_line_clean _ E) as [init [l [S Hl]]].
  rewrite S, filter_app. cbn [filter].
  rewrite (ends_clean_non_blank l Hl).
  destruct (tl_snoc (filter non_blank init) l) as [T|[ks T]]; [now left|].
  right. now exists ks, l.
Qed.

(** The bullet rule on a line that ends cleanly gives a line that ends
    cleanly, or the bare bullet. *)
Lemma replace_bullet_clean (x : jstring) :
  ends_clean x = true ->
  ends_clean (replace_bullet x) = true \/ replace_bullet x = BARE_BULLET.
Proof.
  intros H. destruct x as [|c rest]; [discriminate|]. cbn [replace_bullet].
  destruct (is_bullet_glyph c); [|now left].
  destruct (drop_ws rest) as [|d r] eqn:E; [now right|left].
  destruct (drop_ws_decompose rest) as [w [R _]]. rewrite E in R.
  change (BULLET :: 32 :: d :: r) with ([BULLET; 32] ++ d :: r).
  rewrite ends_clean_app_inv by discriminate.
  change (c :: rest) with ([c] ++ rest) in H. rewrite R in H.
  now rewrite app_assoc, ends_clean_app_inv in H by discriminate.
Qed.

(** The content the viewer's normalizer makes of any block satisfies the
    content condition of the round trip. *)
Lemma parseSlide_content_well_formed (slideText : jstring) (i : nat) :
  well_formed_content (content (PresentationView.parseSlide slideText i))
  = true.
Proof.
  unfold PresentationView.parseSlide. cbn [content].
  fold (kept_lines slideText).
  pose proof (map_replace_bullet_no_lf _
                (Forall_tl _ _ (kept_lines_all_no_lf slideText))) as Hlf.
  pose proof (map_replace_bullet_well_formed _
                (Forall_tl _ _ (kept_lines_non_blank slideText))) as Hwf.
  destruct (kept_lines_last_clean slideText) as [E|[ks [x [E Hx]]]];
    [now rewrite E|].
  rewrite E in *. unfold well_formed_content.
  assert (Hne : map replace_bullet (ks ++ [x]) <> [])
    by (rewrite map_app; destruct (map replace_bullet ks); discriminate).
  rewrite (split_join_lines _ Hne Hlf).
  apply forallb_Forall in Hwf. rewrite Hwf. cbn [andb].
  rewrite map_app. cbn [map]. rewrite last_last.
  destruct (join_snoc NEWLINE (map replace_bullet ks)) as [p [_ ->]].
  destruct (replace_bullet_clean x Hx) as [C|C].
  - rewrite (ends_clean_app p _ C). cbn [orb]. apply orb_true_r.
  - rewrite C, jstring_eqb_refl. rewrite !orb_true_r. reflexivity.
Qed.

(** The title a normalizer makes of any block is on one line and ends
    cleanly. *)
Lemma title_of_plain (lines : list jstring) (i : nat) :
  Forall (fun l => no_lf l = true) lines ->
  ends_clean (title_of lines i) = true /\ no_lf (title_of lines i) = true.
Proof.
  intros H. destruct (title_of_clean lines i H) as [Hlf Ht].
  split; [|exact Hlf].
  destruct (trim_ends_clean (title_of lines i)) as [E|E];
    rewrite Ht in E; [|exact E].
  now apply title_of_not_nil in E.
Qed.

Lemma parseSlide_well_formed (slideText : jstring) (i : nat) :
  ends_with STARS (title (PresentationView.parseSlide slideText i)) = false ->
  well_formed (PresentationView.parseSlide slideText i) = true.
Proof.
  intros Hs. unfold well_formed, well_formed_title.
  rewrite parseSlide_content_well_formed, Hs.
  unfold PresentationView.parseSlide. cbn [title].
  fold (kept_lines slideText).
  destruct (title_of_plain (kept_lines slideText) i
              (kept_lines_all_no_lf slideText)) as [-> ->].
  reflexivity.
Qed.

Lemma In_mapi_from {A B} (f : A -> nat -> B) (k : nat) (l : list A) (y : B) :
  In y (mapi_from f k l) -> exists x n, In x l /\ y = f x n.
Proof.
  revert k; induction l as [|a l IH]; intros k; [intros []|].
  cbn [mapi_from In]. intros [<-|H].
  - exists a, k. split; [now left|reflexivity].
  - destruct (IH _ H) as [x [n [Hx ->]]]. exists x, n.
    split; [now right|reflexivity].
Qed.

Lemma mapi_from_In {A B} (f : A -> nat -> B) (k : nat) (l : list A) (x : A) :
  In x l -> exists n, In (f x n) (mapi_from f k l).
Proof.
  revert k; induction l as [|a l IH]; intros k; [intros []|].
  cbn [mapi_from In]. intros [<-|H].
  - exists k. now left.
  - destruct (IH (S k) H) as [n Hn]. exists n. now right.
Qed.

(** Every Slide of [parsedSlides] is made by [parseSlide]. *)
Lemma parsedSlides_In (stored : jstring) (s : Slide) :
  In s (PresentationView.parsedSlides stored) ->
  exists block n, s = PresentationView.parseSlide block n.
Proof.
  unfold PresentationView.parsedSlides, mapi. intros H.
  apply In_mapi_from in H as [block [n [_ ->]]]. now exists block, n.
Qed.

(** X21: the Slides the viewer has loaded from any stored content come
    back from its own export, with the exported first line as title,
    provided no title ends in [**]. *)
Theorem viewer_slides_export_reparse (stored : jstring) :
  let slides := PresentationView.parsedSlides stored in
  Forall (fun s => ends_with STARS (title s) = false) slides ->
  PresentationView.parsedSlides (PresentationView.export_text slides)
  = mapi reparsed slides.
Proof.
  intros slides H. apply parsedSlides_export_text.
  apply Forall_forall. intros s Hs.
  pose proof (proj1 (Forall_forall _ _) H s Hs) as Hstars. cbv beta in Hstars.
  apply parsedSlides_In in Hs as [block [n ->]].
  now apply parseSlide_well_formed.
Qed.

Lemma viewer_slides_export_reparse_witness :
  PresentationView.parsedSlides
    (PresentationView.export_text
       (PresentationView.parsedSlides Examples.stored_with_bare_bullet))
  = [mkSlide (js "Slide 1: One") (js "x" ++ [LF] ++ [BULLET; 32]) 0;
     mkSlide (js "Slide 2: Two") (BULLET :: js " b") 1].
Proof.
  rewrite (viewer_slides_export_reparse Examples.stored_with_bare_bullet);
    [by_evaluation|].
  replace (PresentationView.parsedSlides Examples.stored_with_bare_bullet)
    with [mkSlide (js "One") (js "x" ++ [LF] ++ [BULLET; 32]) 0;
          mkSlide (js "Two") (BULLET :: js " b") 1] by by_evaluation.
  each_by_evaluation.
Defined.

(** The conditions are necessary. *)

Lemma length_drop_ws (s : jstring) : (length (drop_ws s) <= length s)%nat.
Proof.
  destruct (drop_ws_decompose s) as [w [E _]].
  rewrite E at 2. rewrite length_app. lia.
Qed.

Lemma length_trim (s : jstring) : (length (trim s) <= length s)%nat.
Proof.
  unfold trim, trim_start, trim_end. rewrite length_rev.
  pose proof (length_drop_ws (rev (drop_ws s))) as H1.
  pose proof (length_drop_ws s) as H2.
  rewrite length_rev in H1. lia.
Qed.

Lemma length_replace_label (s : jstring) :
  (length (replace_label s) <= length s)%nat.
Proof.
  unfold replace_label.
  destruct (starts_with_ci SLIDE_TITLE_LABEL s); [rewrite length_skipn; lia|].
  destruct (starts_with_ci TITLE_LABEL s); [rewrite length_skipn; lia|lia].
Qed.

Lemma ends_with_app (p x y : jstring) :
  ends_with p y = true -> ends_with p (x ++ y) = true.
Proof.
  unfold ends_with. intros H. rewrite rev_app_distr.
  apply starts_with_inv in H. rewrite H, <- app_assoc.
  apply starts_with_app.
Qed.

Section Forced.

Variables (slide : Slide) (i : nat).
Hypothesis Htitle_clean : ends_clean (title slide) = true.
Hypothesis Htitle_lf : no_lf (title slide) = true.
Hypothesis Hcontent : well_formed_content (content slide) = true.

Lemma length_title_line :
  length (title_line slide i)
  = (length (default_title i) + 2 + length (title slide))%nat.
Proof.
  unfold title_line, default_title. rewrite !length_app. cbn [length COLON_].
  lia.
Qed.

(** When the title ends in [**], the title that comes back is shorter than
    the exported first line. *)
Lemma title_of_title_line_shorter (rest : list jstring) :
  ends_with STARS (title slide) = true ->
  (length (title_of (title_line slide i :: rest) i)
   < length (title_line slide i))%nat.
Proof.
  intros Hs. unfold title_of.
  destruct (is_empty (trim (replace_label (replace_stars (title_line slide i)))));
    [rewrite length_title_line; lia|].
  pose proof (length_trim (replace_label (replace_stars (title_line slide i))))
    as H1.
  pose proof (length_replace_label (replace_stars (title_line slide i))) as H2.
  assert (H3 : (length (replace_stars (title_line slide i))
                < length (title_line slide i))%nat).
  { unfold replace_stars.
    assert (P : strip_prefix STARS (title_line slide i) = title_line slide i)
      by reflexivity.
    rewrite P. unfold strip_suffix.
    assert (E : ends_with STARS (title_line slide i) = true).
    { unfold title_line. now repeat apply ends_with_app. }
    rewrite E, length_firstn, length_title_line. cbn [length STARS]. lia. }
  lia.
Qed.

Lemma stars_forced :
  title (PresentationView.parseSlide (export_block slide i) i)
    = title_line slide i ->
  ends_with STARS (title slide) = false.
Proof.
  unfold PresentationView.parseSlide. cbn [title].
  fold (kept_lines (export_block slide i)).
  rewrite (kept_lines_export_block slide i Htitle_clean Htitle_lf Hcontent).
  intros H. destruct (ends_with STARS (title slide)) eqn:E; [|reflexivity].
  pose proof (title_of_title_line_shorter
                (match content slide with
                 | [] => []
                 | _ :: _ => split NEWLINE (trim_end (content slide))
                 end) E) as L.
  rewrite H in L. lia.
Qed.

End Forced.

Lemma parsedSlides_export_text_plain (slides : list Slide) :
  Forall plain slides ->
  PresentationView.parsedSlides (PresentationView.export_text slides)
  = mapi (fun s n => PresentationView.parseSlide (export_block s n) n) slides.
Proof.
  intros Hp.
  unfold PresentationView.parsedSlides, PresentationView.export_text.
  destruct slides as [|s0 rest] eqn:E; [reflexivity|]. rewrite <- E in *.
  assert (Hne : slides <> []) by (subst; discriminate). clear E.
  rewrite split_join.
  - rewrite filter_all.
    + unfold mapi.
      apply (mapi_from_compose PresentationView.parseSlide export_block
               (fun s n => PresentationView.parseSlide (export_block s n) n)
               plain 0 slides (fun s n Hs => eq_refl) Hp).
    + unfold mapi. apply (mapi_from_Forall plain _ _ _ _
        (fun s n Hs =>
           match Hs with
           | conj H1 (conj H2 H3) => export_block_is_slide_block s n H1 H3
           end) Hp).
  - apply separator_not_nil.
  - now apply mapi_from_not_nil.
  - unfold mapi. apply (mapi_from_Forall plain _ _ _ _
      (fun s n Hs =>
         match Hs with
         | conj H1 (conj H2 H3) => export_block_framed s n H2 H3
         end) Hp).
Qed.

Lemma title_line_plain (s : Slide) (n : nat) :
  ends_clean (title_line s n) = true -> no_lf (title_line s n) = true ->
  ends_clean (title s) = true /\ no_lf (title s) = true.
Proof.
  unfold title_line. intros Hc Hl. split.
  - destruct (title s) as [|c t] eqn:E.
    + rewrite app_nil_r, !app_assoc in Hc.
      rewrite ends_clean_app_inv in Hc by discriminate. discriminate.
    + rewrite !app_assoc in Hc.
      now rewrite ends_clean_app_inv in Hc by discriminate.
  - rewrite !no_lf_app in Hl.
    apply andb_true_iff in Hl as [_ Hl].
    apply andb_true_iff in Hl as [_ Hl].
    now apply andb_true_iff in Hl as [_ Hl].
Qed.

Lemma titles_forced (k : nat) (slides : list Slide) :
  Forall plain slides ->
  map title
    (mapi_from (fun s n => PresentationView.parseSlide (export_block s n) n)
       k slides)
  = mapi_from title_line k slides ->
  Forall (fun s => well_formed s = true) slides.
Proof.
  intros Hp. revert k; induction Hp as [|s slides [H1 [H2 H3]] _ IH];
    intros k H; [constructor|].
  cbn [mapi_from map] in H. injection H as Ht Hrest.
  constructor; [|now apply (IH (S k))].
  unfold well_formed, well_formed_title.
  now rewrite H1, H2, H3, (stars_forced s k H1 H2 H3 Ht).
Qed.

(** X20: the conditions of the export round trip are necessary: when the
    export of a deck re-parses to Slides with the contents of the deck and
    the exported first lines as titles, every Slide of the deck is well
    formed. *)
Theorem export_reparse_only_well_formed (slides : list Slide) :
  let back :=
    PresentationView.parsedSlides (PresentationView.export_text slides) in
  map content back = map content slides ->
  map title back = mapi title_line slides ->
  Forall (fun s => well_formed s = true) slides.
Proof.
  intros back Hc Ht.
  assert (Hp : Forall plain slides).
  { apply Forall_forall. intros s Hs.
    assert (C : well_formed_content (content s) = true).
    { apply (in_map content) in Hs. rewrite <- Hc in Hs.
      apply in_map_iff in Hs as [b [<- Hb]].
      apply parsedSlides_In in Hb as [block [n ->]].
      apply parseSlide_content_well_formed. }
    destruct (mapi_from_In title_line 0 slides s Hs) as [n Hn].
    fold (mapi title_line slides) in Hn. rewrite <- Ht in Hn.
    apply in_map_iff in Hn as [b [Hb Hin]].
    apply parsedSlides_In in Hin as [block [m ->]].
    unfold PresentationView.parseSlide in Hb. cbn [title] in Hb.
    destruct (title_of_plain (filter non_blank (split NEWLINE (trim block))) m
                (kept_lines_all_no_lf block)) as [T1 T2].
    rewrite Hb in T1, T2.
    destruct (title_line_plain s n T1 T2) as [P1 P2].
    now repeat split. }
  subst back. rewrite (parsedSlides_export_text_plain slides Hp) in Ht.
  now apply (titles_forced 0 slides Hp).
Qed.

Lemma export_reparse_only_well_formed_witness :
  Forall (fun s => well_formed s = true) Examples.viewer_deck.
Proof.
  apply export_reparse_only_well_formed; by_evaluation.
Defined.

End ExportExtras.

(** ** The two pages on the same stored content *)

Module CrossPage.

Lemma parseSlide_canonical (slideText : jstring) (i : nat) :
  PresentationView.parseSlide slideText i
  = canonical_bullets (SignIn.parseSlide slideText i).
Proof.
  unfold canonical_bullets, SignIn.parseSlide, PresentationView.parseSlide.
  cbn [title content index]. fold (kept_lines slideText). f_equal.
  pose proof (kept_lines_no_lf slideText) as H.
  destruct (tl (kept_lines slideText)) as [|l ls] eqn:E; [reflexivity|].
  now rewrite split_join_lines.
Qed.

Lemma mapi_from_map {A B C} (f : A -> nat -> B) (g : B -> C) (k : nat)
    (l : list A) :
  map g (mapi_from f k l) = mapi_from (fun x n => g (f x n)) k l.
Proof.
  revert k; induction l as [|x l IH]; intros k; [reflexivity|].
  cbn [mapi_from map]. now rewrite IH.
Qed.

Lemma mapi_from_ext {A B} (f g : A -> nat -> B) (k : nat) (l : list A) :
  (forall x n, f x n = g x n) -> mapi_from f k l = mapi_from g k l.
Proof.
  intros H. revert k; induction l as [|x l IH]; intros k; [reflexivity|].
  cbn [mapi_from]. now rewrite H, IH.
Qed.

(** X18: on the same stored content the viewer and the generation page
    show the same number of Slides with the same titles and indices; the
    viewer's Slides are those of the generation page with the bullet rule
    applied to every content line. *)
Theorem pages_show_same_slides (stored : jstring) :
  PresentationView.parsedSlides stored
  = map canonical_bullets (SignIn.selectedSlides stored)
  /\ length (PresentationView.parsedSlides stored)
     = length (SignIn.selectedSlides stored)
  /\ map title (PresentationView.parsedSlides stored)
     = map title (SignIn.selectedSlides stored)
  /\ map index (PresentationView.parsedSlides stored)
     = map index (SignIn.selectedSlides stored).
Proof.
  assert (E : PresentationView.parsedSlides stored
              = map canonical_bullets (SignIn.selectedSlides stored)).
  { unfold PresentationView.parsedSlides, SignIn.selectedSlides, mapi.
    rewrite mapi_from_map. apply mapi_from_ext, parseSlide_canonical. }
  split; [exact E|]. rewrite E, length_map, !map_map.
  repeat split.
Qed.

(** X19: the read loop never makes more Slides than the decoded text has
    complete records. *)
Theorem slides_bounded_by_records (chunks : list (list byte)) :
  (length (SignIn.generatedSlides (snd (SignIn.stream_response chunks)))
   <= length (complete_records (decoded (List.concat chunks))))%nat.
Proof.
  rewrite stream_response_spec.
  destruct (StreamExtras.for_parts_appended
              (complete_records (decoded (List.concat chunks)))
              SignIn.initial_ui) as [a [[Ha _] La]].
  destruct (SignIn.for_parts _ SignIn.initial_ui) as [[[]|e] u];
    cbn [outcome snd] in *; rewrite Ha; cbn [SignIn.initial_ui
    SignIn.generatedSlides app]; exact La.
Qed.

End CrossPage.
